(** * Decoder engine and session history of the ras-2 server

    A shallow embedding of the route module of the server (the six
    decoders, the classifier [detectEncryptionType] and the dispatcher
    [performDecryption]) and of [server/storage.ts] (the in-memory session
    store), together with the properties of the specification that concern
    them.

    JavaScript strings are sequences of UTF-16 code units; they are
    modelled as lists of integers.  Functions that may throw return an
    [outcome]. *)

From Stdlib Require Import ZArith List Bool Lia Ascii String.
From Stdlib Require Import Sorted Permutation.
Import ListNotations.

Open Scope Z_scope.

(** ** JavaScript values and built-ins used by the server *)

Module JS.

Definition jsstring := list Z.

(** A string literal of the source, as code units (ASCII only). *)
Definition lit (s : string) : jsstring :=
  map (fun a => Z.of_N (N_of_ascii a)) (list_ascii_of_string s).

(** [s.length] *)
Definition len (s : jsstring) : Z := Z.of_nat (List.length s).

(** A JavaScript number as the server meets it: [NaN] or an integer.
    Integers are exact as long as they stay below 2^53 in absolute value,
    which is the range in which the model is meant. *)
Inductive number :=
| NaN
| Int (z : Z).

(** [ToUint16] followed by the one-unit string: [String.fromCharCode(n)]
    returns the code unit [n mod 2^16]; [NaN] becomes unit 0. *)
Definition fromCharCode (n : number) : Z :=
  match n with
  | NaN => 0
  | Int z => z mod 65536
  end.

(** The class [\s] of a regular expression, which is also the white space
    that [parseInt] skips. *)
Definition isWhiteSpace (c : Z) : bool :=
  ((9 <=? c) && (c <=? 13))
  || (c =? 32) || (c =? 160) || (c =? 5760)
  || ((8192 <=? c) && (c <=? 8202))
  || (c =? 8232) || (c =? 8233) || (c =? 8239) || (c =? 8287)
  || (c =? 12288) || (c =? 65279).

Definition isDigit (c : Z) : bool := (48 <=? c) && (c <=? 57).
Definition isUpper (c : Z) : bool := (65 <=? c) && (c <=? 90).
Definition isLower (c : Z) : bool := (97 <=? c) && (c <=? 122).
Definition isHexDigit (c : Z) : bool :=
  isDigit c || ((97 <=? c) && (c <=? 102)) || ((65 <=? c) && (c <=? 70)).

(** Value of a code unit as a digit in some radix up to 36. *)
Definition digitValue (c : Z) : option Z :=
  if isDigit c then Some (c - 48)
  else if isLower c then Some (c - 97 + 10)
  else if isUpper c then Some (c - 65 + 10)
  else None.

Fixpoint dropWhile {A} (p : A -> bool) (l : list A) : list A :=
  match l with
  | [] => []
  | x :: l' => if p x then dropWhile p l' else l
  end.

(** The longest prefix of [s] made of digits of radix [R], read as an
    integer; [None] when that prefix is empty. *)
Fixpoint readDigits (R : Z) (acc : option Z) (s : jsstring) : option Z :=
  match s with
  | [] => acc
  | c :: s' =>
      match digitValue c with
      | Some d =>
          if d <? R
          then readDigits R (Some (match acc with
                                   | Some a => a * R + d
                                   | None => d
                                   end)) s'
          else acc
      | None => acc
      end
  end.

(** [parseInt(s, radix)]; [radix = 0] stands for a missing radix.  The
    steps are those of ECMA-262: trim leading white space, read a sign,
    settle the radix, strip a [0x] prefix when the radix allows it, read the
    longest prefix of digits. *)
Definition parseInt (s : jsstring) (radix : Z) : number :=
  let s1 := dropWhile isWhiteSpace s in
  let '(sign, s2) :=
    match s1 with
    | 45 :: r => (-1, r)
    | 43 :: r => (1, r)
    | _ => (1, s1)
    end in
  if (radix =? 0) || ((2 <=? radix) && (radix <=? 36)) then
    let stripPrefix := (radix =? 0) || (radix =? 16) in
    let R0 := if radix =? 0 then 10 else radix in
    let '(R, s3) :=
      match s2 with
      | 48 :: x :: r =>
          if stripPrefix && ((x =? 120) || (x =? 88)) then (16, r) else (R0, s2)
      | _ => (R0, s2)
      end in
    match readDigits R None s3 with
    | None => NaN
    | Some v => Int (sign * v)
    end
  else NaN.

(** [s.substr(i, 2)] for [0 <= i]. *)
Definition substr2 (s : jsstring) (i : nat) : jsstring := firstn 2 (skipn i s).

(** [s.split(sep)] for a one-unit separator: never empty, [""] splits into
    one empty fragment. *)
Fixpoint split (sep : Z) (s : jsstring) : list jsstring :=
  match s with
  | [] => [[]]
  | c :: s' =>
      if c =? sep then [] :: split sep s'
      else match split sep s' with
           | [] => [[c]]
           | f :: fs => (c :: f) :: fs
           end
  end.

(** [Boolean(s)] on a string: false exactly for the empty string. *)
Definition Boolean (s : jsstring) : bool :=
  match s with [] => false | _ => true end.

(** [parts.join('')] *)
Definition join (parts : list jsstring) : jsstring := List.concat parts.

(** [s.replace(/[class]/g, f)]: every unit of the class is replaced by the
    string the callback returns for it. *)
Definition replaceClass (cls : Z -> bool) (f : Z -> jsstring) (s : jsstring)
  : jsstring :=
  flat_map (fun c => if cls c then f c else [c]) s.

(** [s.includes(c)] for a one-unit string. *)
Definition includes (s : jsstring) (c : Z) : bool := existsb (Z.eqb c) s.

End JS.

Import JS.

(** ** Regular expressions

    The patterns of the classifier use classes, concatenation, [?], [+] and
    [*] only, all anchored by [^] and [$] and without flags.  They are
    matched by derivatives. *)

Module Regex.

Inductive regex :=
| Empty
| Eps
| Cls (p : Z -> bool)
| Seq (a b : regex)
| Alt (a b : regex)
| Star (a : regex).

Definition Opt (a : regex) : regex := Alt Eps a.
Definition Plus (a : regex) : regex := Seq a (Star a).
Definition Chr (c : Z) : regex := Cls (Z.eqb c).

Fixpoint nullable (r : regex) : bool :=
  match r with
  | Empty => false
  | Eps => true
  | Cls _ => false
  | Seq a b => nullable a && nullable b
  | Alt a b => nullable a || nullable b
  | Star _ => true
  end.

Fixpoint deriv (c : Z) (r : regex) : regex :=
  match r with
  | Empty => Empty
  | Eps => Empty
  | Cls p => if p c then Eps else Empty
  | Seq a b =>
      if nullable a
      then Alt (Seq (deriv c a) b) (deriv c b)
      else Seq (deriv c a) b
  | Alt a b => Alt (deriv c a) (deriv c b)
  | Star a => Seq (deriv c a) (Star a)
  end.

(** [/^r$/.test(s)] *)
Fixpoint test (r : regex) (s : jsstring) : bool :=
  match s with
  | [] => nullable r
  | c :: s' => test (deriv c r) s'
  end.

(** The language of a pattern, as a relation. *)
Inductive lang : regex -> jsstring -> Prop :=
| L_Eps : lang Eps []
| L_Cls p c : p c = true -> lang (Cls p) [c]
| L_Seq a b s t : lang a s -> lang b t -> lang (Seq a b) (s ++ t)
| L_AltL a b s : lang a s -> lang (Alt a b) s
| L_AltR a b s : lang b s -> lang (Alt a b) s
| L_StarNil a : lang (Star a) []
| L_StarCons a s t : lang a s -> lang (Star a) t -> lang (Star a) (s ++ t).

(** Code units that a pattern can consume at all. *)
Fixpoint alphabet (r : regex) (c : Z) : bool :=
  match r with
  | Empty | Eps => false
  | Cls p => p c
  | Seq a b | Alt a b => alphabet a c || alphabet b c
  | Star a => alphabet a c
  end.

End Regex.

Import Regex.


(** ** Exceptions *)

Module Exn.

(** What the server throws.  [URIError] is the built-in error of
    [decodeURIComponent]; the others are the [new Error(...)] of
    the route module, named after the decoder whose message they carry
    ([UnsupportedType] is the [default] branch of the dispatcher). *)
Inductive error :=
| URIError
| DecimalFailed
| HexFailed
| Base64Failed
| UrlFailed
| UnsupportedType.

Inductive outcome (A : Type) :=
| Return (a : A)
| Throw (e : error).

Arguments Return {A} a.
Arguments Throw {A} e.

Definition bind {A B} (m : outcome A) (k : A -> outcome B) : outcome B :=
  match m with
  | Return a => k a
  | Throw e => Throw e
  end.

(** [try { body } catch { handler }] *)
Definition try_catch {A} (body : outcome A) (handler : outcome A) : outcome A :=
  match body with
  | Return a => Return a
  | Throw _ => handler
  end.

Definition succeeds {A} (m : outcome A) : bool :=
  match m with Return _ => true | Throw _ => false end.

End Exn.

Import Exn.

Notation "x <- m ;; k" := (bind m (fun x => k))
  (at level 61, m at next level, right associativity).

(** ** Node and ECMAScript library functions of the decoders *)

Module Lib.

(** *** UTF-8 and UTF-16 *)

(** [UTF16EncodeCodePoint] *)
Definition utf16 (cp : Z) : jsstring :=
  if cp <? 65536 then [cp]
  else [55296 + Z.shiftr (cp - 65536) 10; 56320 + Z.land (cp - 65536) 1023].

(** A multi-byte sequence under way: the code point so far, the number of
    continuation bytes still expected and the range allowed for the next
    one. *)
Record pending := { cp : Z; need : nat; lo : Z; hi : Z }.

(** A byte met outside any sequence: what it emits and what it opens. *)
Definition utf8_start (b : Z) : list Z * option pending :=
  if b <? 128 then ([b], None)
  else if (194 <=? b) && (b <=? 223)
  then ([], Some {| cp := Z.land b 31; need := 1; lo := 128; hi := 191 |})
  else if (224 <=? b) && (b <=? 239)
  then ([], Some {| cp := Z.land b 15; need := 2;
                    lo := if b =? 224 then 160 else 128;
                    hi := if b =? 237 then 159 else 191 |})
  else if (240 <=? b) && (b <=? 244)
  then ([], Some {| cp := Z.land b 7; need := 3;
                    lo := if b =? 240 then 144 else 128;
                    hi := if b =? 244 then 143 else 191 |})
  else ([65533], None).

(** Decoding with replacement: every maximal ill-formed part becomes one
    U+FFFD, and the byte that broke a sequence is read again on its own. *)
Fixpoint utf8_decode (st : option pending) (bs : list Z) : list Z :=
  match bs with
  | [] => match st with None => [] | Some _ => [65533] end
  | b :: bs' =>
      match st with
      | None =>
          let '(out, st') := utf8_start b in out ++ utf8_decode st' bs'
      | Some p =>
          if (lo p <=? b) && (b <=? hi p) then
            let cp' := Z.lor (Z.shiftl (cp p) 6) (Z.land b 63) in
            match need p with
            | S (S n) =>
                utf8_decode
                  (Some {| cp := cp'; need := S n; lo := 128; hi := 191 |}) bs'
            | _ => cp' :: utf8_decode None bs'
            end
          else
            let '(out, st') := utf8_start b in
            65533 :: out ++ utf8_decode st' bs'
      end
  end.

(** [buffer.toString('utf8')] *)
Definition toStringUtf8 (bs : list Z) : jsstring :=
  flat_map utf16 (utf8_decode None bs).

(** *** Base64, as Node decodes it

    [Buffer.from(s, 'base64')] is lenient: each code unit is read through
    its low byte, units outside the alphabet (which includes the URL-safe
    [-] and [_]) are skipped, the first [=] ends the input, and a final
    group of two or three sextets yields one or two bytes. *)

Definition unbase64 (c : Z) : option Z :=
  if isUpper c then Some (c - 65)
  else if isLower c then Some (c - 97 + 26)
  else if isDigit c then Some (c - 48 + 52)
  else if (c =? 43) || (c =? 45) then Some 62
  else if (c =? 47) || (c =? 95) then Some 63
  else None.

Fixpoint sextets (s : jsstring) : list Z :=
  match s with
  | [] => []
  | c :: s' =>
      let u := c mod 256 in
      match unbase64 u with
      | Some v => v :: sextets s'
      | None => if u =? 61 then [] else sextets s'
      end
  end.

Fixpoint base64_bytes (l : list Z) : list Z :=
  match l with
  | a :: b :: l2 =>
      let b1 := Z.lor (Z.shiftl a 2) (Z.shiftr b 4) in
      match l2 with
      | c :: l3 =>
          let b2 := Z.lor (Z.shiftl (Z.land b 15) 4) (Z.shiftr c 2) in
          match l3 with
          | d :: l4 =>
              let b3 := Z.lor (Z.shiftl (Z.land c 3) 6) d in
              b1 :: b2 :: b3 :: base64_bytes l4
          | [] => [b1; b2]
          end
      | [] => [b1]
      end
  | _ => []
  end.

(** [Buffer.from(s, 'base64')] *)
Definition bufferFromBase64 (s : jsstring) : list Z := base64_bytes (sextets s).

(** *** [decodeURIComponent] (the [Decode] operation of ECMA-262 with an
    empty set of preserved escapes) *)

Definition ParseHexOctet (h1 h2 : Z) : option Z :=
  if isHexDigit h1 && isHexDigit h2 then
    match digitValue h1, digitValue h2 with
    | Some a, Some b => Some (16 * a + b)
    | _, _ => None
    end
  else None.

(** Number of leading 1 bits of an octet (5 stands for "more than 4"). *)
Definition leadingOnes (B : Z) : nat :=
  if B <? 128 then 0
  else if B <? 192 then 1
  else if B <? 224 then 2
  else if B <? 240 then 3
  else if B <? 248 then 4
  else 5.

(** The [n] escapes [%XX] that must follow a leading octet. *)
Fixpoint readContinuation (n : nat) (s : jsstring)
  : option (list Z * jsstring) :=
  match n with
  | O => Some ([], s)
  | S n' =>
      match s with
      | c :: h1 :: h2 :: r =>
          if c =? 37 then
            match ParseHexOctet h1 h2 with
            | Some b =>
                match readContinuation n' r with
                | Some (bs, r') => Some (b :: bs, r')
                | None => None
                end
            | None => None
            end
          else None
      | _ => None
      end
  end.

(** The code point of a well-formed UTF-8 sequence of two to four octets:
    continuation bytes in [80..BF], no overlong form, no surrogate,
    nothing above U+10FFFF. *)
Definition utf8CodePoint (B : Z) (rest : list Z) : option Z :=
  if forallb (fun b => (128 <=? b) && (b <=? 191)) rest then
    let v := fold_left (fun acc b => Z.lor (Z.shiftl acc 6) (Z.land b 63)) rest
               (match rest with
                | [_] => Z.land B 31
                | [_; _] => Z.land B 15
                | _ => Z.land B 7
                end) in
    let min := match rest with
               | [_] => 128
               | [_; _] => 2048
               | _ => 65536
               end in
    if (min <=? v) && (v <=? 1114111)
       && negb ((55296 <=? v) && (v <=? 57343))
    then Some v else None
  else None.

Fixpoint Decode (fuel : nat) (s : jsstring) : outcome jsstring :=
  match s with
  | [] => Return []
  | C :: rest =>
      match fuel with
      | O => Throw URIError
      | S fuel' =>
          if C =? 37 then
            match rest with
            | h1 :: h2 :: rest2 =>
                match ParseHexOctet h1 h2 with
                | None => Throw URIError
                | Some B =>
                    match leadingOnes B with
                    | O => R <- Decode fuel' rest2 ;; Return (B :: R)
                    | 1%nat | 5%nat => Throw URIError
                    | S n =>
                        match readContinuation n rest2 with
                        | None => Throw URIError
                        | Some (octets, rest3) =>
                            match utf8CodePoint B octets with
                            | None => Throw URIError
                            | Some V =>
                                R <- Decode fuel' rest3 ;;
                                Return (utf16 V ++ R)
                            end
                        end
                    end
                end
            | _ => Throw URIError
            end
          else R <- Decode fuel' rest ;; Return (C :: R)
      end
  end.

(** Every step consumes at least one code unit, so the length of the
    string is fuel enough. *)
Definition decodeURIComponent (s : jsstring) : outcome jsstring :=
  Decode (List.length s) s.

End Lib.

Import Lib.

(** ** The route module: decoders, classifier, dispatcher *)

Module Routes.

Definition backslash : Z := 92.

(** [text.split('\\').filter(Boolean)], every fragment through [parseInt]
    and [String.fromCharCode], joined.  None of these built-ins throws, so
    the body of the [try] always completes. *)
Definition decryptDecimal (text : jsstring) : outcome jsstring :=
  try_catch
    (let numbers := filter Boolean (split backslash text) in
     Return (join (map (fun num => [fromCharCode (parseInt num 0)]) numbers)))
    (Throw DecimalFailed).

(** The loop [for (i = 0; i < cleanHex.length; i += 2)] over
    [cleanHex.substr(i, 2)]: the string is consumed two units at a time and
    a last lone unit is a fragment of its own. *)
Fixpoint hexLoop (cleanHex : jsstring) : jsstring :=
  match cleanHex with
  | [] => []
  | a :: tl =>
      match tl with
      | [] => [fromCharCode (parseInt [a] 16)]
      | b :: tl' => fromCharCode (parseInt [a; b] 16) :: hexLoop tl'
      end
  end.

Definition decryptHex (text : jsstring) : outcome jsstring :=
  try_catch
    (let cleanHex := replaceClass isWhiteSpace (fun _ => []) text in
     Return (hexLoop cleanHex))
    (Throw HexFailed).

Definition decryptBase64 (text : jsstring) : outcome jsstring :=
  try_catch
    (Return (toStringUtf8 (bufferFromBase64 text)))
    (Throw Base64Failed).

(** [/[a-zA-Z]/] *)
Definition isLetter (c : Z) : bool := isLower c || isUpper c.

(** The callback of [decryptCaesar]; [%] is the remainder whose sign is
    that of the dividend.  The shift is an integer and the arithmetic is
    exact, as it is in the code while the shift stays below 2^53 - 51 in
    absolute value. *)
Definition caesarChar (shift : Z) (char : Z) : jsstring :=
  let start := if char <=? 90 then 65 else 97 in
  [fromCharCode (Int (Z.rem (char - start - shift + 26) 26 + start))].

(** [shift: number = 3]: a missing argument is 3. *)
Definition decryptCaesar (text : jsstring) (shift : option Z) : jsstring :=
  let shift := match shift with Some n => n | None => 3 end in
  replaceClass isLetter (caesarChar shift) text.

Definition decryptROT13 (text : jsstring) : jsstring :=
  decryptCaesar text (Some 13).

Definition decryptURL (text : jsstring) : outcome jsstring :=
  try_catch (decodeURIComponent text) (Throw UrlFailed).

(** [/^\\?\d+(\\?\d+)*$/] *)
Definition reDecimal : regex :=
  Seq (Opt (Chr backslash))
      (Seq (Plus (Cls isDigit))
           (Star (Seq (Opt (Chr backslash)) (Plus (Cls isDigit))))).

(** [/^[0-9a-fA-F\s]+$/] *)
Definition isHexOrSpace (c : Z) : bool := isHexDigit c || isWhiteSpace c.
Definition reHex : regex := Plus (Cls isHexOrSpace).

(** [/^[A-Za-z0-9+/]+=*$/] *)
Definition isBase64Char (c : Z) : bool :=
  isUpper c || isLower c || isDigit c || (c =? 43) || (c =? 47).
Definition reBase64 : regex := Seq (Plus (Cls isBase64Char)) (Star (Chr 61)).

(** [/^[A-Za-z0-9%\-_.~]+$/] *)
Definition isUrlChar (c : Z) : bool :=
  isUpper c || isLower c || isDigit c
  || (c =? 37) || (c =? 45) || (c =? 95) || (c =? 46) || (c =? 126).
Definition reUrl : regex := Plus (Cls isUrlChar).

(** The four tests of the classifier, in the order of the source. *)
Definition decimalRule (text : jsstring) : bool :=
  test reDecimal (replaceClass (Z.eqb backslash) (fun _ => []) text).

Definition hexRule (text : jsstring) : bool :=
  test reHex text && (Z.rem (len text) 2 =? 0).

Definition base64Rule (text : jsstring) : bool :=
  test reBase64 text && (Z.rem (len text) 4 =? 0).

Definition urlRule (text : jsstring) : bool :=
  includes text 37 && test reUrl text.

Definition detectEncryptionType (text : jsstring) : string :=
  if decimalRule text then "decimal"%string
  else if hexRule text then "hex"%string
  else if base64Rule text then "base64"%string
  else if urlRule text then "url"%string
  else "caesar"%string.

Definition performDecryption (text : jsstring) (type : string)
    (caesarShift : option Z) : outcome (jsstring * string) :=
  let detectedType :=
    if String.eqb type "auto"%string then detectEncryptionType text else type in
  decoded <-
    (if String.eqb detectedType "decimal"%string then decryptDecimal text
     else if String.eqb detectedType "hex"%string then decryptHex text
     else if String.eqb detectedType "base64"%string then decryptBase64 text
     else if String.eqb detectedType "caesar"%string
          then Return (decryptCaesar text caesarShift)
     else if String.eqb detectedType "rot13"%string then Return (decryptROT13 text)
     else if String.eqb detectedType "url"%string then decryptURL text
     else Throw UnsupportedType) ;;
  Return (decoded, detectedType).

End Routes.

Import Routes.

(** ** [server/storage.ts]: the in-memory session store *)

Module Storage.

Record InsertDecryptionSession := {
  ins_originalText : jsstring;
  ins_decodedText : jsstring;
  ins_encryptionType : string;
  ins_originalLength : Z;
  ins_decodedLength : Z
}.

(** [createdAt] is a nullable timestamp; a date is its [getTime()], the
    milliseconds since the epoch. *)
Record DecryptionSession := {
  id : string;
  originalText : jsstring;
  decodedText : jsstring;
  encryptionType : string;
  originalLength : Z;
  decodedLength : Z;
  createdAt : option Z
}.

(** A [Map<string, DecryptionSession>] iterates in insertion order, and
    [set] on a key already present keeps the position of that key. *)
Definition SessionMap := list (string * DecryptionSession).

Fixpoint mapSet (k : string) (v : DecryptionSession) (m : SessionMap)
  : SessionMap :=
  match m with
  | [] => [(k, v)]
  | (k', v') :: m' =>
      if String.eqb k k' then (k, v) :: m' else (k', v') :: mapSet k v m'
  end.

(** [Array.from(m.values())] *)
Definition mapValues (m : SessionMap) : list DecryptionSession := map snd m.

Record MemStorage := { decryptionSessions : SessionMap }.

Definition newMemStorage : MemStorage := {| decryptionSessions := [] |}.

(** [randomUUID()] and [new Date()] are inputs of the model. *)
Definition createDecryptionSession (st : MemStorage)
    (insertSession : InsertDecryptionSession) (uuid : string) (now : Z)
  : MemStorage * DecryptionSession :=
  let session :=
    {| id := uuid;
       originalText := ins_originalText insertSession;
       decodedText := ins_decodedText insertSession;
       encryptionType := ins_encryptionType insertSession;
       originalLength := ins_originalLength insertSession;
       decodedLength := ins_decodedLength insertSession;
       createdAt := Some now |} in
  ({| decryptionSessions := mapSet uuid session (decryptionSessions st) |},
   session).

(** [x.createdAt?.getTime() || 0] *)
Definition timeOf (x : DecryptionSession) : Z :=
  match createdAt x with
  | Some t => t
  | None => 0
  end.

(** The comparator [(a, b) => timeOf(b) - timeOf(a)]. *)
Definition compareSessions (a b : DecryptionSession) : Z := timeOf b - timeOf a.

Section Sort.

Context {A : Type} (cmp : A -> A -> Z).

(** [Array.prototype.sort] is stable: an element goes before the first
    later element that the comparator does not put ahead of it. *)
Fixpoint insert (x : A) (l : list A) : list A :=
  match l with
  | [] => [x]
  | y :: l' => if cmp x y <=? 0 then x :: l else y :: insert x l'
  end.

Definition sort (l : list A) : list A := fold_right insert [] l.

(** [l.slice(0, e)]: a negative end counts from the end of the list. *)
Definition slice0 (l : list A) (e : Z) : list A :=
  let n := Z.of_nat (List.length l) in
  let final := if e <? 0 then Z.max (n + e) 0 else Z.min e n in
  firstn (Z.to_nat final) l.

End Sort.

(** [limit: number = 10] *)
Definition getDecryptionSessions (st : MemStorage) (limit : option Z)
  : list DecryptionSession :=
  let limit := match limit with Some n => n | None => 10 end in
  let sessions := mapValues (decryptionSessions st) in
  slice0 (sort compareSessions sessions) limit.

End Storage.

Import Storage.

(** * Notions used to state the properties *)

(** First letter of the alphabet of a letter's case: [char <= 'Z' ? 65 : 97]. *)
Definition caseStart (c : Z) : Z := if c <=? 90 then 65 else 97.

(** The letter [shift] places before [c] in its alphabet, wrapping. *)
Definition shiftedBack (shift c : Z) : Z :=
  caseStart c + (c - caseStart c - shift) mod 26.

(** [a] may stand before [b] in a list ordered newest first by [key]. *)
Definition notOlder {A} (key : A -> Z) (a b : A) : Prop := key b <= key a.

(** The hex rule in the words of the specification: once white space is
    removed the text is not empty, holds hex digits only and has even
    length. *)
Definition specHexShape (text : jsstring) : bool :=
  let clean := filter (fun c => negb (isWhiteSpace c)) text in
  Boolean clean && forallb isHexDigit clean && Z.even (len clean).

Definition sampleInsert : InsertDecryptionSession :=
  {| ins_originalText := lit "Khoor";
     ins_decodedText := lit "Hello";
     ins_encryptionType := "caesar";
     ins_originalLength := 5;
     ins_decodedLength := 5 |}.

(** A store after two requests, one second apart. *)
Definition twoSessions : MemStorage :=
  let st1 := fst (createDecryptionSession newMemStorage sampleInsert "id-1" 1000) in
  fst (createDecryptionSession st1 sampleInsert "id-2" 2000).

(** * Further parts of the server and of the client library *)

(** ** [server/storage.ts]: the user store *)

Module Users.

Record InsertUser := { ins_username : jsstring; ins_password : jsstring }.

Record User := {
  user_id : string;
  username : jsstring;
  password : jsstring
}.

(** The field [users], a [Map<string, User>] in insertion order. *)
Definition UserMap := list (string * User).

(** [m.set(k, v)] *)
Fixpoint userSet (k : string) (v : User) (m : UserMap) : UserMap :=
  match m with
  | [] => [(k, v)]
  | (k', v') :: m' =>
      if String.eqb k k' then (k, v) :: m' else (k', v') :: userSet k v m'
  end.

(** [m.get(k)], [None] for [undefined] *)
Fixpoint userGet (k : string) (m : UserMap) : option User :=
  match m with
  | [] => None
  | (k', v') :: m' => if String.eqb k k' then Some v' else userGet k m'
  end.

(** Strict equality of two strings. *)
Definition strictEq (a b : jsstring) : bool :=
  if list_eq_dec Z.eq_dec a b then true else false.

Definition getUser (users : UserMap) (id : string) : option User :=
  userGet id users.

(** [Array.from(users.values()).find(user => user.username === username)] *)
Definition getUserByUsername (users : UserMap) (name : jsstring)
  : option User :=
  find (fun user => strictEq (username user) name) (map snd users).

(** [randomUUID()] is an input of the model. *)
Definition createUser (users : UserMap) (insertUser : InsertUser)
    (uuid : string) : UserMap * User :=
  let user := {| user_id := uuid;
                 username := ins_username insertUser;
                 password := ins_password insertUser |} in
  (userSet uuid user users, user).

End Users.

Import Users.

(** ** The route module: request handlers *)

Module Handlers.

(** The body of [POST /api/decrypt] with fields of the right JSON types
    (the shift, when given, an integer); an absent field is [None]. *)
Record DecryptBody := {
  body_text : option jsstring;
  body_encryptionType : option string;
  body_caesarShift : option Z
}.

(** The literals of [z.enum] in [decryptRequestSchema]. *)
Definition encryptionTypes : list string :=
  ["auto"; "decimal"; "hex"; "base64"; "caesar"; "rot13"; "url"]%string.

(** [decryptRequestSchema.parse]: a text of at least one code unit, a type
    among the literals with default ["auto"], an optional shift. *)
Definition parseDecryptRequest (body : DecryptBody)
  : option (jsstring * string * option Z) :=
  match body_text body with
  | None => None
  | Some text =>
      if 1 <=? len text then
        match body_encryptionType body with
        | None => Some (text, "auto"%string, body_caesarShift body)
        | Some type =>
            if existsb (String.eqb type) encryptionTypes
            then Some (text, type, body_caesarShift body)
            else None
        end
      else None
  end.

(** Why a request was answered with status 400. *)
Inductive failure :=
| Invalid
| Thrown (e : error).

Inductive response :=
| Success (decoded : jsstring) (detectedType : string)
          (originalLength decodedLength : Z) (sessionId : string)
| BadRequest (cause : failure).

(** The handler of [POST /api/decrypt]: validate, decode, record the
    session, answer; anything thrown on the way is answered with 400. *)
Definition postDecrypt (st : MemStorage) (body : DecryptBody)
    (uuid : string) (now : Z) : MemStorage * response :=
  match parseDecryptRequest body with
  | None => (st, BadRequest Invalid)
  | Some (text, encryptionType, caesarShift) =>
      match performDecryption text encryptionType caesarShift with
      | Throw e => (st, BadRequest (Thrown e))
      | Return (decoded, detectedType) =>
          let '(st', session) :=
            createDecryptionSession st
              {| ins_originalText := text;
                 ins_decodedText := decoded;
                 ins_encryptionType := detectedType;
                 ins_originalLength := len text;
                 ins_decodedLength := len decoded |} uuid now in
          (st', Success decoded detectedType (len text) (len decoded)
                        (id session))
      end
  end.

(** [s.lastIndexOf(c)] for a one-unit string, -1 when absent. *)
Fixpoint lastIndexOf (s : jsstring) (c : Z) : Z :=
  match s with
  | [] => -1
  | x :: s' =>
      let r := lastIndexOf s' c in
      if 0 <=? r then r + 1 else if x =? c then 0 else -1
  end.

(** [s.substring(start)]: a negative start counts as 0. *)
Definition substring (s : jsstring) (start : Z) : jsstring :=
  skipn (Z.to_nat (Z.max 0 start)) s.

Definition allowedTypes : list jsstring := [lit ".txt"; lit ".log"; lit ".dat"].

Section FileFilter.

(** [String.prototype.toLowerCase], left open outside ASCII. *)
Variable toLowerCase : jsstring -> jsstring.

(** The [fileFilter] of the upload: [true] stands for [cb(null, true)],
    [false] for the callback with the error.  The index of the last dot is
    taken in the name as given, the extension in the lower-cased name. *)
Definition fileFilter (originalname : jsstring) : bool :=
  let fileExtension :=
    substring (toLowerCase originalname) (lastIndexOf originalname 46) in
  existsb (strictEq fileExtension) allowedTypes.

End FileFilter.

End Handlers.

Import Handlers.

(** ** [client/src/lib/decryption.ts]: the age of a session *)

Module Client.

(** The four texts of [formatTimeAgo]; the number is the one printed. *)
Inductive timeAgo :=
| Moments
| MinutesAgo (n : Z)
| HoursAgo (n : Z)
| DaysAgo (n : Z).

(** [now] and [then_] are the [getTime()] of two valid dates;
    [Math.floor] of a quotient by a positive number is [/]. *)
Definition formatTimeAgo (now then_ : Z) : timeAgo :=
  let diffInMinutes := (now - then_) / (1000 * 60) in
  if diffInMinutes <? 1 then Moments
  else if diffInMinutes <? 60 then MinutesAgo diffInMinutes
  else
    let diffInHours := diffInMinutes / 60 in
    if diffInHours <? 24 then HoursAgo diffInHours
    else DaysAgo (diffInHours / 24).

End Client.

Import Client.

(** ** Notions used to state the further properties *)

(** The number written by a string of decimal digits. *)
Definition decimalValue (digits : jsstring) : Z :=
  fold_left (fun acc d => 10 * acc + (d - 48)) digits 0.

(** The value of a hex digit. *)
Definition hexValue (c : Z) : Z :=
  match digitValue c with Some v => v | None => 0 end.

(** The bytes written by a string of hex digits, two digits a byte, a last
    lone digit a byte of its own. *)
Fixpoint hexValues (s : jsstring) : list Z :=
  match s with
  | [] => []
  | a :: tl =>
      match tl with
      | [] => [hexValue a]
      | b :: tl' => (16 * hexValue a + hexValue b) :: hexValues tl'
      end
  end.

(** The lower-case hex digit of a value below 16. *)
Definition hexDigitChar (v : Z) : Z := if v <? 10 then 48 + v else 87 + v.

(** A byte as two hex digits. *)
Definition toHex (b : Z) : jsstring :=
  [hexDigitChar (b / 16); hexDigitChar (b mod 16)].

(** The escape [%XX] of a byte. *)
Definition percentEscape (b : Z) : jsstring := 37 :: toHex b.

(** Percent-encoding of a string: the units of [unreserved] other than [%]
    are kept, the others are escaped. *)
Definition percentEncode (unreserved : Z -> bool) (s : jsstring) : jsstring :=
  flat_map (fun c => if unreserved c && negb (c =? 37) then [c]
                     else percentEscape c) s.

(** The text [\f1\f2...] of a list of fragments. *)
Definition backslashJoin (fragments : list jsstring) : jsstring :=
  flat_map (fun f => backslash :: f) fragments.

(** ASCII lower case. *)
Definition asciiLower (c : Z) : Z := if isUpper c then c + 32 else c.

Definition isAscii (c : Z) : bool := (0 <=? c) && (c <? 128).

(** A user store after two registrations. *)
Definition twoUsers : UserMap :=
  let users1 :=
    fst (createUser [] {| ins_username := lit "alice";
                          ins_password := lit "secret" |} "id-1") in
  fst (createUser users1 {| ins_username := lit "bob";
                            ins_password := lit "hunter2" |} "id-2").

(** No entry of the map has the key [k]. *)
Definition noKey (k : string) (m : SessionMap) : Prop :=
  forall k' v, In (k', v) m -> k' <> k.

(** The integers from 0 to [n - 1]. *)
Definition codes (n : nat) : list Z := map Z.of_nat (seq 0 n).

(** A character that none of the four rules admits. *)
Definition isForeign (c : Z) : bool :=
  negb (isHexOrSpace c || isBase64Char c || isUrlChar c
        || (c =? 61) || (c =? 92)).


(** * Properties *)

(** ** The matcher decides the language of a pattern *)

Create HintDb regex.
#[local] Hint Constructors lang : regex.

Section RegexCorrect.

Lemma lang_nil_nullable r s : lang r s -> s = [] -> nullable r = true.
Proof.
  induction 1; intros E; simpl; auto.
  - discriminate.
  - apply app_eq_nil in E as [-> ->]. rewrite IHlang1, IHlang2; auto.
  - rewrite IHlang; auto.
  - rewrite IHlang, orb_true_r; auto.
Qed.

Lemma nullable_lang r : nullable r = true -> lang r [].
Proof.
  induction r; simpl; intros E; try discriminate; auto with regex.
  - apply andb_true_iff in E as [E1 E2].
    change (@nil Z) with (@nil Z ++ []). auto with regex.
  - apply orb_true_iff in E as [E|E]; auto with regex.
Qed.

Lemma star_cons_inv a c s :
  lang (Star a) (c :: s) ->
  exists s1 s2, s = s1 ++ s2 /\ lang a (c :: s1) /\ lang (Star a) s2.
Proof.
  intros H. remember (Star a) as r eqn:Er. remember (c :: s) as w eqn:Ew.
  revert a c s Er Ew.
  induction H; intros a0 c0 s0 Er Ew; try discriminate.
  injection Er as ->.
  destruct s as [|x s].
  - simpl in Ew. eapply IHlang2; eauto.
  - simpl in Ew. injection Ew as -> <-. exists s, t. auto.
Qed.

Lemma lang_seq_inv a b s :
  lang (Seq a b) s -> exists s1 s2, s = s1 ++ s2 /\ lang a s1 /\ lang b s2.
Proof. inversion 1; subst; eauto. Qed.

Lemma lang_alt_inv a b s : lang (Alt a b) s -> lang a s \/ lang b s.
Proof. inversion 1; subst; auto. Qed.

Lemma lang_seq_cons a b c s t :
  lang a (c :: s) -> lang b t -> lang (Seq a b) (c :: s ++ t).
Proof. intros Ha Hb. apply (L_Seq a b (c :: s) t Ha Hb). Qed.

Lemma deriv_lang c r : forall s, lang (deriv c r) s <-> lang r (c :: s).
Proof.
  induction r as [| |p|a IHa b IHb|a IHa b IHb|a IHa]; intros s; simpl.
  - split; inversion 1.
  - split; inversion 1.
  - destruct (p c) eqn:E; split; intros H; inversion H; subst.
    + constructor; auto.
    + constructor.
    + congruence.
  - assert (Hseq : lang (Seq (deriv c a) b) s ->  lang (Seq a b) (c :: s)).
    { intros H. apply lang_seq_inv in H as (s1 & s2 & -> & H1 & H2).
      apply lang_seq_cons; auto. apply IHa; auto. }
    assert (Hinv : lang (Seq a b) (c :: s) ->
                   (lang a [] /\ lang b (c :: s)) \/ lang (Seq (deriv c a) b) s).
    { intros H. apply lang_seq_inv in H as (s1 & s2 & E & H1 & H2).
      destruct s1 as [|x s1]; simpl in E.
      - subst s2. left; auto.
      - injection E as -> ->. right. constructor; auto. apply IHa; auto. }
    destruct (nullable a) eqn:N; split; intros H.
    + apply lang_alt_inv in H as [H|H]; auto.
      apply (L_Seq a b [] (c :: s)).
      * apply nullable_lang; auto.
      * apply IHb; auto.
    + apply Hinv in H as [[_ H]|H].
      * apply L_AltR, IHb; auto.
      * apply L_AltL; auto.
    + auto.
    + apply Hinv in H as [[H _]|H]; auto.
      apply lang_nil_nullable in H; auto. congruence.
  - split; intros H; apply lang_alt_inv in H as [H|H].
    + apply L_AltL, IHa; auto.
    + apply L_AltR, IHb; auto.
    + apply L_AltL, IHa; auto.
    + apply L_AltR, IHb; auto.
  - split; intros H.
    + apply lang_seq_inv in H as (s1 & s2 & -> & H1 & H2).
      apply (L_StarCons a (c :: s1) s2); auto. apply IHa; auto.
    + apply star_cons_inv in H as (s1 & s2 & -> & H1 & H2).
      constructor; auto. apply IHa; auto.
Qed.

(** The matcher decides the language. *)
Lemma test_lang r s : test r s = true <-> lang r s.
Proof.
  revert r. induction s as [|c s IH]; intros r; simpl.
  - split; [apply nullable_lang | intros H; eapply lang_nil_nullable; eauto].
  - rewrite IH. apply deriv_lang.
Qed.

Lemma forallb_weaken {A} (p q : A -> bool) l :
  (forall x, p x = true -> q x = true) ->
  forallb p l = true -> forallb q l = true.
Proof.
  intros I. induction l as [|x l IH]; simpl; auto.
  intros H. apply andb_true_iff in H as [H1 H2].
  rewrite (I _ H1), IH; auto.
Qed.

Lemma lang_alphabet r s : lang r s -> forallb (alphabet r) s = true.
Proof.
  induction 1; simpl; auto.
  - rewrite H; auto.
  - rewrite forallb_app. apply andb_true_iff; split.
    + eapply forallb_weaken; [|exact IHlang1]. intros x ->; auto.
    + eapply forallb_weaken; [|exact IHlang2]. intros x ->; apply orb_true_r.
  - eapply forallb_weaken; [|exact IHlang]. intros x ->; auto.
  - eapply forallb_weaken; [|exact IHlang]. intros x ->; apply orb_true_r.
  - rewrite forallb_app. apply andb_true_iff; split; [exact IHlang1 | exact IHlang2].
Qed.

Lemma lang_star_cls p s : forallb p s = true -> lang (Star (Cls p)) s.
Proof.
  induction s as [|c s IH]; simpl; intros H.
  - constructor.
  - apply andb_true_iff in H as [Hc Hs].
    change (c :: s) with ([c] ++ s). constructor; auto with regex.
Qed.

(** [/^[class]+$/] accepts exactly the non-empty strings over the class. *)
Lemma test_plus_cls p s :
  test (Plus (Cls p)) s = Boolean s && forallb p s.
Proof.
  destruct (test (Plus (Cls p)) s) eqn:T.
  - apply test_lang in T. symmetry.
    pose proof (lang_alphabet _ _ T) as A.
    destruct s as [|c s].
    + apply lang_nil_nullable in T; [discriminate | reflexivity].
    + change (forallb p (c :: s) = true).
      eapply forallb_weaken; [|exact A]. simpl.
      intros x Hx. rewrite orb_diag in Hx; auto.
  - destruct s as [|c s]; simpl; auto.
    destruct (p c && forallb p s) eqn:F; auto.
    exfalso. apply andb_true_iff in F as [F1 F2].
    assert (L : lang (Plus (Cls p)) (c :: s)).
    { change (c :: s) with ([c] ++ s). constructor; auto with regex.
      apply lang_star_cls; auto. }
    apply test_lang in L. congruence.
Qed.

End RegexCorrect.

(** ** Sorting and slicing *)

Section SortFacts.

Context {A : Type} (cmp : A -> A -> Z) (key : A -> Z).
Hypothesis cmp_key : forall a b, cmp a b = key b - key a.


Lemma insert_perm x l : Permutation (x :: l) (insert cmp x l).
Proof.
  induction l as [|y l IH]; simpl; auto.
  destruct (cmp x y <=? 0); auto.
  rewrite perm_swap. constructor. exact IH.
Qed.

Lemma sort_perm l : Permutation l (sort cmp l).
Proof.
  induction l as [|x l IH]; simpl; auto.
  rewrite <- insert_perm. constructor. exact IH.
Qed.

Lemma insert_sorted x l :
  StronglySorted (notOlder key) l -> StronglySorted (notOlder key) (insert cmp x l).
Proof.
  induction 1 as [|y l Hs IH Hy]; simpl.
  - repeat constructor.
  - destruct (cmp x y <=? 0) eqn:E.
    + apply Z.leb_le in E. rewrite cmp_key in E.
      constructor; [constructor; auto|].
      constructor; [unfold notOlder; lia|].
      eapply Forall_impl; [|exact Hy]. unfold notOlder. intros; lia.
    + apply Z.leb_gt in E. rewrite cmp_key in E.
      constructor; auto.
      eapply Permutation_Forall; [apply insert_perm|].
      constructor; auto. unfold notOlder; lia.
Qed.

Lemma sort_sorted l : StronglySorted (notOlder key) (sort cmp l).
Proof.
  induction l as [|x l IH]; simpl; [constructor | apply insert_sorted, IH].
Qed.

Lemma in_firstn (x : A) n l : In x (firstn n l) -> In x l.
Proof.
  intros H. rewrite <- (firstn_skipn n l). apply in_or_app; auto.
Qed.

Lemma in_skipn (x : A) n l : In x (skipn n l) -> In x l.
Proof.
  intros H. rewrite <- (firstn_skipn n l). apply in_or_app; auto.
Qed.

Lemma sorted_firstn n l :
  StronglySorted (notOlder key) l -> StronglySorted (notOlder key) (firstn n l).
Proof.
  intros H. revert n. induction H as [|y l Hs IH Hy]; intros [|n]; simpl;
    try constructor; auto.
  rewrite Forall_forall in *. intros z Hz. apply Hy.
  eapply in_firstn; eauto.
Qed.

Lemma sorted_split n l :
  StronglySorted (notOlder key) l ->
  forall x y, In x (firstn n l) -> In y (skipn n l) -> notOlder key x y.
Proof.
  intros H. revert n. induction H as [|z l Hs IH Hz]; intros n x y Hx Hy.
  - destruct n; simpl in Hx; contradiction.
  - destruct n as [|n]; simpl in Hx, Hy; [contradiction|].
    destruct Hx as [<-|Hx].
    + rewrite Forall_forall in Hz. apply Hz.
      eapply in_skipn; eauto.
    + eapply IH; eauto.
Qed.

Lemma slice0_nonneg (l : list A) e :
  0 <= e -> slice0 l e = firstn (Z.to_nat e) l.
Proof.
  intros He. unfold slice0.
  destruct (e <? 0) eqn:E; [apply Z.ltb_lt in E; lia|].
  destruct (Z.min_spec e (Z.of_nat (List.length l))) as [[H ->]|[H ->]]; auto.
  rewrite Nat2Z.id, firstn_all. symmetry. apply firstn_all2. lia.
Qed.

End SortFacts.

(** ** The decoders never take their [catch] branch, except for URLs *)

Lemma decryptDecimal_total text : succeeds (decryptDecimal text) = true.
Proof. reflexivity. Qed.

Lemma decryptHex_total text : succeeds (decryptHex text) = true.
Proof. reflexivity. Qed.

Lemma decryptBase64_total text : succeeds (decryptBase64 text) = true.
Proof. reflexivity. Qed.

(** Removing a class is filtering its complement. *)
Lemma replaceClass_remove cls s :
  replaceClass cls (fun _ => []) s = filter (fun c => negb (cls c)) s.
Proof.
  unfold replaceClass.
  induction s as [|c s IH]; simpl; auto.
  rewrite IH. destruct (cls c); auto.
Qed.

(** The hex decoder hands every pair, and a last lone digit, to [parseInt]:
    an odd number of digits yields one more character, never an error. *)
Lemma hexLoop_length s :
  Z.of_nat (List.length (hexLoop s)) = (Z.of_nat (List.length s) + 1) / 2.
Proof.
  assert (G : forall n s, (List.length s <= n)%nat ->
    Z.of_nat (List.length (hexLoop s)) = (Z.of_nat (List.length s) + 1) / 2).
  { clear s. induction n as [|n IH]; intros s Hn.
    - destruct s; simpl in *; [reflexivity | lia].
    - destruct s as [|a [|b s]]; try reflexivity.
      cbn [hexLoop List.length]. rewrite !Nat2Z.inj_succ.
      rewrite IH by (simpl in Hn; lia).
      replace (Z.succ (Z.succ (Z.of_nat (List.length s))) + 1)
        with ((Z.of_nat (List.length s) + 1) + 1 * 2) by lia.
      rewrite Z.div_add by lia. lia. }
  apply (G (List.length s)). lia.
Qed.

(** ** The [decodeURIComponent] model does not depend on its fuel *)

Lemma readContinuation_length n : forall s bs r,
  readContinuation n s = Some (bs, r) -> (List.length r <= List.length s)%nat.
Proof.
  induction n as [|n IH]; simpl; intros s bs r H.
  - injection H as _ <-. lia.
  - destruct s as [|c [|h1 [|h2 s]]]; try discriminate.
    destruct (c =? 37); try discriminate.
    destruct (ParseHexOctet h1 h2); try discriminate.
    destruct (readContinuation n s) as [[bs' r']|] eqn:E; try discriminate.
    injection H as _ <-. apply IH in E. simpl. lia.
Qed.

Lemma Decode_fuel_irrelevant : forall f1 f2 s,
  (List.length s <= f1)%nat -> (List.length s <= f2)%nat ->
  Decode f1 s = Decode f2 s.
Proof.
  induction f1 as [|f1 IH]; intros f2 s H1 H2.
  - destruct s; simpl in *; [destruct f2; reflexivity | lia].
  - destruct s as [|C rest]; [destruct f2; reflexivity|].
    destruct f2 as [|f2]; [simpl in H2; lia|].
    simpl in H1, H2. cbn [Decode].
    destruct (C =? 37).
    + destruct rest as [|h1 [|h2 rest2]]; auto.
      destruct (ParseHexOctet h1 h2) as [B|]; auto.
      simpl in H1, H2.
      destruct (leadingOnes B) as [|[|n]].
      * rewrite (IH f2 rest2) by lia. reflexivity.
      * reflexivity.
      * assert (K : forall m, match readContinuation m rest2 with
                    | Some (octets, rest3) =>
                        match utf8CodePoint B octets with
                        | Some V => R <- Decode f1 rest3;; Return (utf16 V ++ R)
                        | None => Throw URIError
                        end
                    | None => Throw URIError
                    end =
                    match readContinuation m rest2 with
                    | Some (octets, rest3) =>
                        match utf8CodePoint B octets with
                        | Some V => R <- Decode f2 rest3;; Return (utf16 V ++ R)
                        | None => Throw URIError
                        end
                    | None => Throw URIError
                    end).
        { intros m. destruct (readContinuation m rest2) as [[o r3]|] eqn:E; auto.
          apply readContinuation_length in E.
          destruct (utf8CodePoint B o); auto.
          rewrite (IH f2 r3) by lia. reflexivity. }
        destruct n as [|[|[|[|n]]]]; try reflexivity; apply K.
    + rewrite (IH f2 rest) by lia. reflexivity.
Qed.

(** ** The classifier *)

Lemma rem2_even n : (Z.rem n 2 =? 0) = Z.even n.
Proof.
  destruct (Z.even n) eqn:E.
  - apply Z.even_spec in E as [k ->].
    rewrite Z.mul_comm, Z.rem_mul by lia. reflexivity.
  - apply Z.eqb_neq. intros R.
    pose proof (Z.quot_rem' n 2) as Q. rewrite R, Z.add_0_r in Q.
    rewrite Q, Z.even_mul in E. discriminate.
Qed.

Lemma hexRule_spec text :
  hexRule text = Boolean text && forallb isHexOrSpace text && Z.even (len text).
Proof.
  unfold hexRule, reHex. rewrite test_plus_cls, rem2_even. reflexivity.
Qed.

Lemma urlRule_spec text :
  urlRule text = includes text 37 && (Boolean text && forallb isUrlChar text).
Proof.
  unfold urlRule, reUrl. rewrite test_plus_cls. reflexivity.
Qed.

Lemma isDigit_not_backslash c : isDigit c = true -> negb (backslash =? c) = true.
Proof.
  unfold isDigit, backslash. intros H.
  apply andb_true_iff in H as [H1 H2].
  apply Z.leb_le in H1, H2. apply negb_true_iff, Z.eqb_neq. lia.
Qed.

Lemma filter_all {A} (p : A -> bool) l : forallb p l = true -> filter p l = l.
Proof.
  induction l as [|x l IH]; simpl; auto.
  intros H. apply andb_true_iff in H as [-> H]. rewrite IH; auto.
Qed.

Lemma forallb_filter_self {A} (p : A -> bool) l : forallb p (filter p l) = true.
Proof.
  induction l as [|x l IH]; simpl; auto.
  destruct (p x) eqn:E; simpl; auto. rewrite E; auto.
Qed.

(** The decimal rule: what is left once the backslashes are gone is a
    non-empty string of digits. *)
Lemma decimalRule_spec text :
  decimalRule text =
  let rest := filter (fun c => negb (backslash =? c)) text in
  Boolean rest && forallb isDigit rest.
Proof.
  unfold decimalRule. rewrite replaceClass_remove. cbv zeta.
  set (rest := filter _ text).
  assert (NB : forallb (fun c => negb (backslash =? c)) rest = true)
    by apply forallb_filter_self.
  destruct (test reDecimal rest) eqn:T.
  - apply test_lang in T. symmetry. apply andb_true_iff; split.
    + destruct rest; auto.
      apply lang_nil_nullable in T; [discriminate | reflexivity].
    + apply lang_alphabet in T.
      clear -T NB. induction rest as [|c rest IH]; simpl in *; auto.
      apply andb_true_iff in T as [T1 T2].
      apply andb_true_iff in NB as [N1 N2].
      rewrite IH by auto. rewrite andb_true_r.
      apply negb_true_iff in N1. unfold backslash in *. rewrite N1 in T1.
      simpl in T1. destruct (isDigit c); auto.
  - destruct (Boolean rest && forallb isDigit rest) eqn:E; auto.
    exfalso. apply andb_true_iff in E as [E1 E2].
    assert (L : lang reDecimal rest).
    { unfold reDecimal.
      apply (L_Seq _ _ [] rest); [apply L_AltL; constructor|].
      rewrite <- (app_nil_r rest).
      constructor; [|constructor].
      apply test_lang. rewrite test_plus_cls, E1, E2. reflexivity. }
    apply test_lang in L. congruence.
Qed.

Lemma decimalRule_digits text :
  text <> [] -> forallb isDigit text = true -> decimalRule text = true.
Proof.
  intros Hne Hd. rewrite decimalRule_spec. cbv zeta.
  rewrite filter_all.
  - rewrite Hd. destruct text; [congruence | reflexivity].
  - eapply forallb_weaken; [|exact Hd]. apply isDigit_not_backslash.
Qed.

(** ** The Caesar decoder *)


Lemma isLetter_cases c :
  isLetter c = true <-> (65 <= c <= 90) \/ (97 <= c <= 122).
Proof.
  unfold isLetter, isLower, isUpper.
  rewrite orb_true_iff, !andb_true_iff, !Z.leb_le. tauto.
Qed.

Lemma isLetter_offset c :
  isLetter c = true -> 0 <= c - caseStart c < 26.
Proof.
  intros H. apply isLetter_cases in H. unfold caseStart.
  destruct (Z.leb_spec c 90); lia.
Qed.

Lemma shiftedBack_letter shift c :
  isLetter c = true ->
  isLetter (shiftedBack shift c) = true
  /\ caseStart (shiftedBack shift c) = caseStart c.
Proof.
  intros H. unfold shiftedBack.
  assert (B := Z.mod_pos_bound (c - caseStart c - shift) 26 eq_refl).
  set (m := (c - caseStart c - shift) mod 26) in *. clearbody m.
  apply isLetter_cases in H. rewrite isLetter_cases.
  assert (S : caseStart c = 65 /\ c <= 90 \/ caseStart c = 97 /\ 90 < c).
  { unfold caseStart. destruct (Z.leb_spec c 90); auto. }
  destruct S as [[-> S]|[-> S]]; unfold caseStart;
    match goal with |- context [?a <=? 90] =>
      destruct (Z.leb_spec a 90) end; lia.
Qed.

(** As long as the shift is at most 26 the dividend of [%] is not negative
    and the callback wraps as intended. *)
Lemma caesarChar_small shift c :
  isLetter c = true -> shift <= 26 ->
  caesarChar shift c = [shiftedBack shift c].
Proof.
  intros H Hs. pose proof (isLetter_offset c H) as O.
  unfold caesarChar, shiftedBack. fold (caseStart c).
  rewrite Z.rem_mod_nonneg by lia.
  replace (c - caseStart c - shift + 26)
    with (c - caseStart c - shift + 1 * 26) by lia.
  rewrite Z.mod_add by lia.
  assert (B := Z.mod_pos_bound (c - caseStart c - shift) 26 eq_refl).
  set (m := (c - caseStart c - shift) mod 26) in *. clearbody m.
  assert (S : caseStart c = 65 \/ caseStart c = 97).
  { unfold caseStart. destruct (c <=? 90); auto. }
  unfold fromCharCode. rewrite Z.mod_small by lia. f_equal. lia.
Qed.

Lemma decryptCaesar_cons c text shift :
  decryptCaesar (c :: text) shift =
  (if isLetter c
   then caesarChar (match shift with Some n => n | None => 3 end) c
   else [c]) ++ decryptCaesar text shift.
Proof. reflexivity. Qed.

(** Characters outside [a-zA-Z] are copied, whatever the shift. *)
Lemma decryptCaesar_keeps_nonletters text shift :
  forallb (fun c => negb (isLetter c)) text = true ->
  decryptCaesar text shift = text.
Proof.
  induction text as [|c text IH]; intros H; [reflexivity|].
  simpl in H. apply andb_true_iff in H as [Hc Ht].
  rewrite decryptCaesar_cons, IH by auto.
  apply negb_true_iff in Hc. rewrite Hc. reflexivity.
Qed.

Lemma decryptCaesar_length text shift :
  List.length (decryptCaesar text shift) = List.length text.
Proof.
  induction text as [|c text IH]; [reflexivity|].
  rewrite decryptCaesar_cons, length_app, IH.
  destruct (isLetter c); reflexivity.
Qed.

(** For shifts up to 26, negative ones included, the decoder is the
    letter-wise backward shift (in the exact arithmetic of the model). *)
Lemma decryptCaesar_small text shift :
  shift <= 26 ->
  decryptCaesar text (Some shift) =
  map (fun c => if isLetter c then shiftedBack shift c else c) text.
Proof.
  intros Hs. induction text as [|c text IH]; [reflexivity|].
  rewrite decryptCaesar_cons, IH. simpl.
  destruct (isLetter c) eqn:L; [rewrite caesarChar_small by auto|]; reflexivity.
Qed.

Lemma shiftedBack_compose a b c :
  isLetter c = true ->
  shiftedBack b (shiftedBack a c) = shiftedBack (a + b) c.
Proof.
  intros H. destruct (shiftedBack_letter a c H) as [_ S].
  unfold shiftedBack at 1. rewrite S. unfold shiftedBack.
  replace (caseStart c + (c - caseStart c - a) mod 26 - caseStart c - b)
    with ((c - caseStart c - a) mod 26 - b) by lia.
  rewrite Zminus_mod_idemp_l. f_equal. f_equal. lia.
Qed.

Lemma shiftedBack_cycle k c :
  isLetter c = true -> shiftedBack (26 * k) c = c.
Proof.
  intros H. pose proof (isLetter_offset c H) as O. unfold shiftedBack.
  replace (c - caseStart c - 26 * k) with (c - caseStart c + (- k) * 26) by lia.
  rewrite Z.mod_add, Z.mod_small by lia. lia.
Qed.

Lemma decryptCaesar_twice a b text :
  a <= 26 -> b <= 26 ->
  decryptCaesar (decryptCaesar text (Some a)) (Some b) =
  map (fun c => if isLetter c then shiftedBack (a + b) c else c) text.
Proof.
  intros Ha Hb. rewrite !decryptCaesar_small by auto. rewrite map_map.
  apply map_ext. intros c. destruct (isLetter c) eqn:L.
  - destruct (shiftedBack_letter a c L) as [-> _].
    apply shiftedBack_compose; auto.
  - rewrite L. reflexivity.
Qed.

(** ROT13 is its own inverse, on every string. *)
Lemma decryptROT13_involutive text : decryptROT13 (decryptROT13 text) = text.
Proof.
  unfold decryptROT13. rewrite decryptCaesar_twice by lia.
  rewrite <- (map_id text) at 2. apply map_ext. intros c.
  destruct (isLetter c) eqn:L; auto.
  apply (shiftedBack_cycle 1 c L).
Qed.

(** Encoding by a shift and decoding by the same shift is the identity as
    long as the shift stays within one turn of the alphabet. *)
Lemma decryptCaesar_round_trip_small shift text :
  -26 <= shift <= 26 ->
  decryptCaesar (decryptCaesar text (Some (- shift))) (Some shift) = text.
Proof.
  intros Hs. rewrite decryptCaesar_twice by lia.
  rewrite <- (map_id text) at 2. apply map_ext. intros c.
  destruct (isLetter c) eqn:L; auto.
  replace (- shift + shift) with (26 * 0) by lia.
  apply shiftedBack_cycle; auto.
Qed.

(** ** Decoding failures *)

(** C1. The specification wants [DecodeError(Hex)] for an odd number of hex
    digits.  The decoder instead reads the last lone digit as a character
    of its own: on ["48656c6c6"] it returns the five characters
    [H e l l U+0006] and does not throw. *)
Theorem decryptHex_odd_length_returns :
  decryptHex (lit "48656c6c6") = Return (lit "Hell" ++ [6])
  /\ Z.odd (len (lit "48656c6c6")) = true.
Proof. split; reflexivity. Qed.

(** C2. The specification wants [DecodeError(Base64)] for input outside the
    base64 alphabet.  The decoder skips such characters and replaces
    ill-formed UTF-8 by U+FFFD: on ["not base64!!"] it returns five
    characters and does not throw. *)
Theorem decryptBase64_invalid_returns :
  decryptBase64 (lit "not base64!!") = Return [65533; 65533; 91; 106; 506]
  /\ forallb isBase64Char (lit "not base64!!") = false.
Proof. split; reflexivity. Qed.

(** C3. The specification wants [DecodeError(Decimal)] when a fragment is
    not a number.  [parseInt] yields [NaN] for such a fragment and
    [String.fromCharCode(NaN)] is U+0000: on [\72\abc\105] the decoder
    returns [H U+0000 i] and does not throw. *)
Theorem decryptDecimal_bad_fragment_returns :
  decryptDecimal (lit "\72\abc\105") = Return [72; 0; 105]
  /\ filter Boolean (split backslash (lit "\72\abc\105"))
     = [lit "72"; lit "abc"; lit "105"]
  /\ parseInt (lit "abc") 0 = NaN.
Proof. repeat split; reflexivity. Qed.

(** ** Caesar and ROT13 *)

(** C4. The specification wants every letter moved back by [shift] places
    modulo 26 for every integer shift.  The callback adds 26 only once
    before taking the remainder, so from shift 27 on the dividend can be
    negative and the result leaves the alphabet: ["a"] decoded with shift 30
    is ["]"], where the letter four places back is ["w"]. *)
Theorem decryptCaesar_shift_30_leaves_alphabet :
  decryptCaesar (lit "a") (Some 30) = lit "]"
  /\ shiftedBack 30 97 = 119
  /\ isLetter 93 = false.
Proof. repeat split; reflexivity. Qed.

(** C7. The specification wants
    [caesarDecode(caesarDecode(s, -shift), shift) = s] for every integer
    shift.  With shift 30 and [s = "z"] the inner call gives ["d"] and the
    outer call gives the backquote U+0060; with shift -30 and [s = "a"] the
    inner call already leaves the alphabet. *)
Theorem decryptCaesar_round_trip_breaks :
  decryptCaesar (decryptCaesar (lit "z") (Some (- 30))) (Some 30) = [96]
  /\ decryptCaesar (decryptCaesar (lit "a") (Some (- (-30)))) (Some (-30))
     = lit "]".
Proof. split; reflexivity. Qed.

(** ** The classifier *)

(** C5. The classifier tries the decimal, hex, base64 and URL rules in this
    order and the first one that holds decides, with ["caesar"] left when
    none does.  Hence a non-empty string of digits is ["decimal"], also
    when the hex rule accepts it, which it does as soon as its length is
    even. *)
Theorem detectEncryptionType_rule_order (text : jsstring) :
  (decimalRule text = true -> detectEncryptionType text = "decimal"%string)
  /\ (decimalRule text = false -> hexRule text = true ->
      detectEncryptionType text = "hex"%string)
  /\ (decimalRule text = false -> hexRule text = false ->
      base64Rule text = true -> detectEncryptionType text = "base64"%string)
  /\ (decimalRule text = false -> hexRule text = false ->
      base64Rule text = false -> urlRule text = true ->
      detectEncryptionType text = "url"%string)
  /\ (decimalRule text = false -> hexRule text = false ->
      base64Rule text = false -> urlRule text = false ->
      detectEncryptionType text = "caesar"%string)
  /\ (text <> [] -> forallb isDigit text = true ->
      detectEncryptionType text = "decimal"%string
      /\ (Z.even (len text) = true -> hexRule text = true)).
Proof.
  unfold detectEncryptionType.
  split; [intros ->; reflexivity|].
  split; [intros -> ->; reflexivity|].
  split; [intros -> -> ->; reflexivity|].
  split; [intros -> -> -> ->; reflexivity|].
  split; [intros -> -> -> ->; reflexivity|].
  intros Hne Hd. split.
  - rewrite decimalRule_digits; auto.
  - intros E. rewrite hexRule_spec, E.
    destruct text; [congruence|]. rewrite andb_true_r. cbn [Boolean andb].
    eapply forallb_weaken; [|eassumption].
    intros c Hc. unfold isHexOrSpace, isHexDigit. rewrite Hc. reflexivity.
Qed.

Lemma detectEncryptionType_rule_order_witness :
  detectEncryptionType (lit "12345678") = "decimal"%string
  /\ hexRule (lit "12345678") = true.
Proof.
  destruct (detectEncryptionType_rule_order (lit "12345678"))
    as (_ & _ & _ & _ & _ & D).
  destruct D as [D H]; [discriminate | reflexivity |].
  split; [exact D | apply H; reflexivity].
Defined.


(** C6. The specification wants ["hex"] exactly when the text without its
    white space is a non-empty string of hex digits of even length.  The
    pattern of the classifier admits white space and the hex decoder
    removes it before pairing the digits, but the classifier takes the
    parity of the text as given, white space counted: ["48 65"], which the
    hex decoder reads as ["He"], is classified ["caesar"], and ["abc "],
    which holds three digits, is classified ["hex"]. *)
Theorem detectEncryptionType_hex_parity_counts_spaces :
  decimalRule (lit "48 65") = false
  /\ specHexShape (lit "48 65") = true
  /\ detectEncryptionType (lit "48 65") = "caesar"%string
  /\ decryptHex (lit "48 65") = Return (lit "He")
  /\ decimalRule (lit "abc ") = false
  /\ specHexShape (lit "abc ") = false
  /\ detectEncryptionType (lit "abc ") = "hex"%string.
Proof. repeat split; reflexivity. Qed.

(** Two spaces are classified as hex although nothing is left of them once
    white space is removed. *)
Lemma detectEncryptionType_hex_spec_shape_fails :
  ~ (decimalRule (lit "  ") = false ->
     (detectEncryptionType (lit "  ") = "hex"%string
      <-> specHexShape (lit "  ") = true)).
Proof.
  intros H. destruct (H eq_refl) as [H1 _].
  specialize (H1 eq_refl). discriminate.
Qed.

(** What the classifier computes: when the decimal rule does not hold, it
    answers ["hex"] exactly when the text as given is not empty, holds hex
    digits and white space only, and has even length, white space
    counted. *)
Theorem detectEncryptionType_hex_iff (text : jsstring) :
  decimalRule text = false ->
  (detectEncryptionType text = "hex"%string
   <-> text <> []
       /\ forallb isHexOrSpace text = true
       /\ Z.even (len text) = true).
Proof.
  intros D. unfold detectEncryptionType. rewrite D.
  pose proof (hexRule_spec text) as S.
  destruct (hexRule text).
  - symmetry in S. apply andb_true_iff in S as [S E].
    apply andb_true_iff in S as [N F].
    split; auto. intros _. repeat split; auto.
    destruct text; [discriminate | congruence].
  - split.
    + destruct (base64Rule text); [discriminate|].
      destruct (urlRule text); discriminate.
    + intros (N & F & E). rewrite F, E in S.
      destruct text; [congruence | discriminate].
Qed.

Lemma detectEncryptionType_hex_iff_witness :
  decimalRule (lit "4a 6f") = false
  /\ (detectEncryptionType (lit "4a 6f") = "hex"%string
      <-> lit "4a 6f" <> []
          /\ forallb isHexOrSpace (lit "4a 6f") = true
          /\ Z.even (len (lit "4a 6f")) = true).
Proof.
  split; [reflexivity|].
  apply (detectEncryptionType_hex_iff (lit "4a 6f")). reflexivity.
Defined.


(** C8. When the label that is finally used is one of ["decimal"], ["hex"],
    ["base64"], ["rot13"], ["url"], two requests that differ in the shift
    only have the same outcome, decoded text or error. *)
Theorem performDecryption_shift_ignored
    (text : jsstring) (type : string) (shift1 shift2 : option Z) :
  In (if String.eqb type "auto" then detectEncryptionType text else type)
     ["decimal"; "hex"; "base64"; "rot13"; "url"]%string ->
  performDecryption text type shift1 = performDecryption text type shift2.
Proof.
  unfold performDecryption. cbv zeta.
  set (detectedType :=
         if String.eqb type "auto" then detectEncryptionType text else type).
  clearbody detectedType. simpl.
  intros [<-|[<-|[<-|[<-|[<-|[]]]]]]; reflexivity.
Qed.

Lemma performDecryption_shift_ignored_witness :
  performDecryption (lit "Uryyb") "rot13" (Some 1)
  = performDecryption (lit "Uryyb") "rot13" (Some 25)
  /\ performDecryption (lit "48656c6c6f") "auto" None
     = performDecryption (lit "48656c6c6f") "auto" (Some 7).
Proof.
  split.
  - apply (performDecryption_shift_ignored (lit "Uryyb") "rot13").
    simpl. auto.
  - apply (performDecryption_shift_ignored (lit "48656c6c6f") "auto").
    simpl. auto.
Defined.

(** ** The session history *)


(** C10.  For every limit [N], a count and so not negative, the query
    returns at most [N] records ([min N total] of them); they are the most
    recently created ones, in order of creation time, newest first: no
    stored record left out is newer than a returned one.  (A record
    without creation time counts as created at time 0.) *)
Theorem getDecryptionSessions_newest_first (st : MemStorage) (N : Z) :
  0 <= N ->
  let stored := mapValues (decryptionSessions st) in
  let result := getDecryptionSessions st (Some N) in
  Z.of_nat (List.length result) <= N
  /\ Z.of_nat (List.length result) = Z.min N (Z.of_nat (List.length stored))
  /\ StronglySorted (fun a b => timeOf b <= timeOf a) result
  /\ exists older,
       Permutation stored (result ++ older)
       /\ forall x y, In x result -> In y older -> timeOf y <= timeOf x.
Proof.
  intros HN stored result.
  assert (K : forall a b, compareSessions a b = timeOf b - timeOf a)
    by reflexivity.
  assert (E : result = firstn (Z.to_nat N) (sort compareSessions stored)).
  { unfold result, getDecryptionSessions. apply slice0_nonneg; auto. }
  assert (L : Z.of_nat (List.length result)
              = Z.min N (Z.of_nat (List.length stored))).
  { rewrite E, length_firstn.
    rewrite <- (Permutation_length (sort_perm compareSessions stored)). lia. }
  split; [lia|]. split; [exact L|]. split.
  - rewrite E. apply (sorted_firstn timeOf).
    apply (sort_sorted compareSessions timeOf K).
  - exists (skipn (Z.to_nat N) (sort compareSessions stored)). split.
    + rewrite E, firstn_skipn. apply sort_perm.
    + rewrite E. intros x y Hx Hy.
      apply (sorted_split timeOf (Z.to_nat N)
               (sort compareSessions stored)); auto.
      apply (sort_sorted compareSessions timeOf K).
Qed.

Lemma getDecryptionSessions_newest_first_witness :
  0 <= 1
  /\ map id (getDecryptionSessions twoSessions (Some 1)) = ["id-2"%string]
  /\ Z.of_nat (List.length (getDecryptionSessions twoSessions (Some 1))) <= 1.
Proof.
  split; [lia|]. split; [reflexivity|].
  apply (getDecryptionSessions_newest_first twoSessions 1). lia.
Defined.

(** * Further properties *)

(** ** [parseInt] on digits *)

Lemma isDigit_cases d :
  isDigit d = true ->
  d = 48 \/ d = 49 \/ d = 50 \/ d = 51 \/ d = 52 \/ d = 53 \/ d = 54
  \/ d = 55 \/ d = 56 \/ d = 57.
Proof.
  unfold isDigit. rewrite andb_true_iff, !Z.leb_le. lia.
Qed.

Lemma digitValue_digit d : isDigit d = true -> digitValue d = Some (d - 48).
Proof. unfold digitValue. intros ->. reflexivity. Qed.

Lemma readDigits_decimal s : forall a,
  forallb isDigit s = true ->
  readDigits 10 (Some a) s
  = Some (fold_left (fun acc d => 10 * acc + (d - 48)) s a).
Proof.
  induction s as [|d s IH]; intros a H; [reflexivity|].
  simpl in H. apply andb_true_iff in H as [Hd Hs].
  cbn [readDigits fold_left]. rewrite digitValue_digit by auto.
  assert (L : (d - 48 <? 10) = true).
  { apply Z.ltb_lt. apply isDigit_cases in Hd. lia. }
  rewrite L, IH by auto. do 2 f_equal. lia.
Qed.

(** A non-empty string of decimal digits is read as the number it writes. *)
Lemma parseInt_decimal s :
  s <> [] -> forallb isDigit s = true -> parseInt s 0 = Int (decimalValue s).
Proof.
  intros Hne H. destruct s as [|d s]; [congruence|].
  simpl in H. apply andb_true_iff in H as [Hd Hs].
  assert (R : readDigits 10 None (d :: s) = Some (decimalValue (d :: s))).
  { unfold decimalValue. cbn [readDigits fold_left].
    rewrite digitValue_digit by auto.
    assert (L : (d - 48 <? 10) = true).
    { apply Z.ltb_lt. apply isDigit_cases in Hd. lia. }
    rewrite L, readDigits_decimal by auto. do 2 f_equal. }
  assert (P : parseInt (d :: s) 0 =
              match readDigits 10 None (d :: s) with
              | Some v => Int (1 * v)
              | None => NaN
              end).
  { destruct s as [|x s].
    - apply isDigit_cases in Hd.
      repeat (destruct Hd as [->|Hd]; [reflexivity|]). subst; reflexivity.
    - assert (Hx : isDigit x = true)
        by (simpl in Hs; apply andb_true_iff in Hs; tauto).
      clear R Hs. apply isDigit_cases in Hx.
      assert (X : (x =? 120) || (x =? 88) = false).
      { apply orb_false_iff; split; apply Z.eqb_neq; lia. }
      apply isDigit_cases in Hd. unfold parseInt.
      repeat (destruct Hd as [->|Hd];
              [cbn [dropWhile isWhiteSpace Z.leb Z.eqb Z.compare Pos.compare
                      Pos.compare_cont Pos.eqb andb orb];
               try rewrite X; reflexivity|]).
      subst d.
      cbn [dropWhile isWhiteSpace Z.leb Z.eqb Z.compare Pos.compare
             Pos.compare_cont Pos.eqb andb orb]. reflexivity. }
  rewrite P, R. f_equal. lia.
Qed.

(** ** The decimal decoder on well-formed input *)

Lemma split_not_nil sep s : split sep s <> [].
Proof.
  destruct s as [|c s]; simpl; [discriminate|].
  destruct (c =? sep); [discriminate|].
  destruct (split sep s); discriminate.
Qed.

Lemma split_fragment f rest :
  forallb isDigit f = true ->
  split backslash (f ++ rest) =
  match split backslash rest with
  | h :: t => (f ++ h) :: t
  | [] => [f]
  end.
Proof.
  pose proof (split_not_nil backslash rest) as NN.
  induction f as [|d f IH]; intros H.
  - simpl. destruct (split backslash rest); [congruence | reflexivity].
  - simpl in H. apply andb_true_iff in H as [Hd Hf].
    cbn [app split].
    assert (N : (d =? backslash) = false).
    { apply Z.eqb_neq. apply isDigit_cases in Hd. unfold backslash. lia. }
    rewrite N, IH by auto.
    destruct (split backslash rest); [congruence | reflexivity].
Qed.

Lemma split_backslashJoin fragments :
  Forall (fun f => forallb isDigit f = true) fragments ->
  split backslash (backslashJoin fragments) = [] :: fragments.
Proof.
  induction 1 as [|f fs Hf Hfs IH]; [reflexivity|].
  unfold backslashJoin in *. cbn [flat_map app split].
  rewrite Z.eqb_refl, split_fragment, IH by auto.
  rewrite app_nil_r. reflexivity.
Qed.

(** X1. On a text [\f1\f2...] whose fragments are non-empty strings of
    decimal digits, each writing a number below 2^53, the decimal decoder
    returns one character per fragment, the one whose code is the number
    written, modulo 2^16. *)
Theorem decryptDecimal_well_formed (fragments : list jsstring) :
  Forall (fun f => f <> [] /\ forallb isDigit f = true
                   /\ decimalValue f < 2 ^ 53) fragments ->
  decryptDecimal (backslashJoin fragments)
  = Return (map (fun f => decimalValue f mod 65536) fragments).
Proof.
  intros H. unfold decryptDecimal, try_catch. f_equal.
  rewrite split_backslashJoin
    by (eapply Forall_impl; [|exact H]; cbv beta; tauto).
  cbn [filter Boolean].
  induction H as [|f fs (Hne & Hd & _) Hfs IH]; [reflexivity|].
  cbn [filter]. destruct f as [|d f]; [congruence|]. cbn [Boolean].
  cbn [map join List.concat]. unfold join in IH. rewrite IH.
  rewrite parseInt_decimal by (auto; discriminate). reflexivity.
Qed.

Lemma decryptDecimal_well_formed_witness :
  decryptDecimal (lit "\72\101\108\108\111") = Return (lit "Hello").
Proof.
  apply (decryptDecimal_well_formed
           [lit "72"; lit "101"; lit "108"; lit "108"; lit "111"]).
  repeat constructor; try discriminate; reflexivity.
Defined.

(** ** The hex decoder on well-formed input *)

Lemma in_codes n c : 0 <= c < Z.of_nat n -> In c (codes n).
Proof.
  intros H. unfold codes. apply in_map_iff. exists (Z.to_nat c).
  split; [lia|]. apply in_seq. lia.
Qed.

Lemma isHexDigit_ascii c : isHexDigit c = true -> 0 <= c < 128.
Proof.
  unfold isHexDigit, isDigit.
  rewrite !orb_true_iff, !andb_true_iff, !Z.leb_le. lia.
Qed.

Lemma hexPair_value a b :
  isHexDigit a = true -> isHexDigit b = true ->
  fromCharCode (parseInt [a; b] 16) = 16 * hexValue a + hexValue b.
Proof.
  intros Ha Hb.
  assert (E : forallb (fun a => forallb (fun b =>
            implb (isHexDigit a && isHexDigit b)
              (fromCharCode (parseInt [a; b] 16)
               =? 16 * hexValue a + hexValue b))
            (codes 128)) (codes 128) = true) by (vm_compute; reflexivity).
  rewrite forallb_forall in E.
  specialize (E a (in_codes 128 a (isHexDigit_ascii a Ha))).
  rewrite forallb_forall in E.
  specialize (E b (in_codes 128 b (isHexDigit_ascii b Hb))).
  rewrite Ha, Hb in E. apply Z.eqb_eq in E. exact E.
Qed.

Lemma hexSingle_value a :
  isHexDigit a = true -> fromCharCode (parseInt [a] 16) = hexValue a.
Proof.
  intros Ha.
  assert (E : forallb (fun a =>
            implb (isHexDigit a)
              (fromCharCode (parseInt [a] 16) =? hexValue a))
            (codes 128) = true) by (vm_compute; reflexivity).
  rewrite forallb_forall in E.
  specialize (E a (in_codes 128 a (isHexDigit_ascii a Ha))).
  rewrite Ha in E. apply Z.eqb_eq in E. exact E.
Qed.

Lemma hexLoop_values s :
  forallb isHexDigit s = true -> hexLoop s = hexValues s.
Proof.
  assert (G : forall n s, (List.length s <= n)%nat ->
              forallb isHexDigit s = true -> hexLoop s = hexValues s).
  { clear s. induction n as [|n IH]; intros s Hn H.
    - destruct s; [reflexivity | simpl in Hn; lia].
    - destruct s as [|a [|b s]]; [reflexivity| |].
      + simpl in H. rewrite andb_true_r in H.
        cbn [hexLoop hexValues]. rewrite hexSingle_value; auto.
      + cbn [forallb] in H. apply andb_true_iff in H as [Ha H].
        apply andb_true_iff in H as [Hb H].
        cbn [hexLoop hexValues].
        rewrite hexPair_value, IH; auto. simpl in Hn. lia. }
  apply (G (List.length s)). lia.
Qed.

Lemma hexValue_bound a : isHexDigit a = true -> 0 <= hexValue a < 16.
Proof.
  intros Ha.
  assert (E : forallb (fun a =>
            implb (isHexDigit a) ((0 <=? hexValue a) && (hexValue a <? 16)))
            (codes 128) = true) by (vm_compute; reflexivity).
  rewrite forallb_forall in E.
  specialize (E a (in_codes 128 a (isHexDigit_ascii a Ha))).
  rewrite Ha in E. simpl in E. apply andb_true_iff in E as [E1 E2].
  apply Z.leb_le in E1. apply Z.ltb_lt in E2. lia.
Qed.

Lemma hexValues_bytes s :
  forallb isHexDigit s = true -> Forall (fun b => 0 <= b < 256) (hexValues s).
Proof.
  assert (G : forall n s, (List.length s <= n)%nat ->
              forallb isHexDigit s = true ->
              Forall (fun b => 0 <= b < 256) (hexValues s)).
  { clear s. induction n as [|n IH]; intros s Hn H.
    - destruct s; [constructor | simpl in Hn; lia].
    - destruct s as [|a [|b s]]; [constructor| |].
      + simpl in H. rewrite andb_true_r in H.
        pose proof (hexValue_bound a H). repeat constructor; lia.
      + cbn [forallb] in H. apply andb_true_iff in H as [Ha H].
        apply andb_true_iff in H as [Hb H].
        pose proof (hexValue_bound a Ha). pose proof (hexValue_bound b Hb).
        cbn [hexValues]. constructor; [lia|].
        apply IH; auto. simpl in Hn. lia. }
  apply (G (List.length s)). lia.
Qed.

(** X2. When what is left of the text once white space is removed holds
    hex digits only, the hex decoder returns the bytes they write, two
    digits a byte (a last lone digit is a byte of its own), and every
    character returned is below 256. *)
Theorem decryptHex_well_formed (text : jsstring) :
  let clean := filter (fun c => negb (isWhiteSpace c)) text in
  forallb isHexDigit clean = true ->
  decryptHex text = Return (hexValues clean)
  /\ Forall (fun b => 0 <= b < 256) (hexValues clean).
Proof.
  intros clean H. split.
  - unfold decryptHex, try_catch. cbv zeta.
    rewrite replaceClass_remove. fold clean. rewrite hexLoop_values; auto.
  - apply hexValues_bytes; auto.
Qed.

Lemma decryptHex_well_formed_witness :
  decryptHex (lit "48 65 6C 6c 6f") = Return (lit "Hello").
Proof.
  apply (decryptHex_well_formed (lit "48 65 6C 6c 6f")). reflexivity.
Defined.

(** X3. The hex decoder never throws, and it returns one character for
    every two characters left once white space is removed, rounded up. *)
Theorem decryptHex_length (text : jsstring) :
  exists decoded,
    decryptHex text = Return decoded
    /\ len decoded
       = (len (filter (fun c => negb (isWhiteSpace c)) text) + 1) / 2.
Proof.
  eexists. split.
  - unfold decryptHex, try_catch. cbv zeta. rewrite replaceClass_remove.
    reflexivity.
  - apply hexLoop_length.
Qed.

Lemma toHex_decoded b rest :
  0 <= b < 256 -> hexLoop (toHex b ++ rest) = b :: hexLoop rest.
Proof.
  intros Hb. unfold toHex. cbn [app hexLoop]. f_equal.
  assert (E : forallb (fun b =>
            fromCharCode
              (parseInt [hexDigitChar (b / 16); hexDigitChar (b mod 16)] 16)
            =? b) (codes 256) = true) by (vm_compute; reflexivity).
  rewrite forallb_forall in E.
  apply Z.eqb_eq, E, in_codes. lia.
Qed.

Lemma toHex_not_space b :
  0 <= b < 256 ->
  filter (fun c => negb (isWhiteSpace c)) (toHex b) = toHex b.
Proof.
  intros Hb.
  assert (E : forallb (fun b =>
            if list_eq_dec Z.eq_dec
                 (filter (fun c => negb (isWhiteSpace c)) (toHex b)) (toHex b)
            then true else false) (codes 256) = true)
    by (vm_compute; reflexivity).
  rewrite forallb_forall in E. specialize (E b (in_codes 256 b Hb)).
  destruct (list_eq_dec Z.eq_dec _ _); [assumption | discriminate].
Qed.

(** X4. Hex round trip: writing every byte of a list as two lower-case hex
    digits and decoding gives the list back. *)
Theorem decryptHex_toHex (bytes : list Z) :
  Forall (fun b => 0 <= b < 256) bytes ->
  decryptHex (flat_map toHex bytes) = Return bytes.
Proof.
  intros H. unfold decryptHex, try_catch. cbv zeta.
  rewrite replaceClass_remove. f_equal.
  induction H as [|b bs Hb Hbs IH]; [reflexivity|].
  cbn [flat_map]. rewrite filter_app, toHex_not_space, toHex_decoded by auto.
  rewrite IH. reflexivity.
Qed.

Lemma decryptHex_toHex_witness :
  decryptHex (flat_map toHex [0; 72; 105; 255]) = Return [0; 72; 105; 255].
Proof.
  apply (decryptHex_toHex [0; 72; 105; 255]). repeat constructor; lia.
Defined.

(** ** The Caesar decoder, continued *)

Lemma decryptCaesar_map text shift :
  decryptCaesar text shift =
  map (fun c => if isLetter c
                then hd c (caesarChar (match shift with
                                       | Some n => n
                                       | None => 3
                                       end) c)
                else c) text.
Proof.
  induction text as [|c text IH]; [reflexivity|].
  rewrite decryptCaesar_cons, IH. cbn [map].
  destruct (isLetter c); reflexivity.
Qed.

(** X5. For every shift up to 26, negative shifts included (down to
    -2^52, so that the arithmetic stays exact), the Caesar decoder replaces
    each letter by the letter [shift] places back in the alphabet of its
    case, wrapping around, and copies every other character. *)
Theorem decryptCaesar_backward_shift (text : jsstring) (shift : Z) :
  - 2 ^ 52 <= shift <= 26 ->
  decryptCaesar text (Some shift) =
  map (fun c => if isLetter c
                then caseStart c + (c - caseStart c - shift) mod 26
                else c) text.
Proof. intros H. apply decryptCaesar_small; lia. Qed.

Lemma decryptCaesar_backward_shift_witness :
  decryptCaesar (lit "Khoor, Zruog!") (Some 3) = lit "Hello, World!".
Proof.
  rewrite (decryptCaesar_backward_shift (lit "Khoor, Zruog!") 3);
    [reflexivity | split; [discriminate | lia]].
Defined.

(** X6. Whatever the shift, given or missing, the Caesar decoder returns a
    text of the same length in which every character that is not an ASCII
    letter stands unchanged at its place. *)
Theorem decryptCaesar_keeps_shape (text : jsstring) (shift : option Z) :
  List.length (decryptCaesar text shift) = List.length text
  /\ forall i c, nth_error text i = Some c -> isLetter c = false ->
                 nth_error (decryptCaesar text shift) i = Some c.
Proof.
  split; [apply decryptCaesar_length|].
  intros i c Hi Hc. rewrite decryptCaesar_map.
  rewrite nth_error_map, Hi. simpl. rewrite Hc. reflexivity.
Qed.

(** X7. ROT13 is its own inverse on every string. *)
Theorem decryptROT13_twice (text : jsstring) :
  decryptROT13 (decryptROT13 text) = text.
Proof. apply decryptROT13_involutive. Qed.

(** X8. For a shift between -26 and 26, decoding with the opposite shift
    and then with the shift gives the text back. *)
Theorem decryptCaesar_round_trip (text : jsstring) (shift : Z) :
  -26 <= shift <= 26 ->
  decryptCaesar (decryptCaesar text (Some (- shift))) (Some shift) = text.
Proof. apply decryptCaesar_round_trip_small. Qed.

Lemma decryptCaesar_round_trip_witness :
  decryptCaesar (decryptCaesar (lit "Attack at dawn") (Some (- 7))) (Some 7)
  = lit "Attack at dawn".
Proof.
  apply (decryptCaesar_round_trip (lit "Attack at dawn") 7). lia.
Defined.

(** X9. Decoding with shift [a] and then with shift [b] is decoding with
    shift [a + b], as long as [a], [b] and [a + b] are at most 26 (and not
    below -2^51, so that the arithmetic stays exact). *)
Theorem decryptCaesar_compose (text : jsstring) (a b : Z) :
  - 2 ^ 51 <= a <= 26 -> - 2 ^ 51 <= b <= 26 -> a + b <= 26 ->
  decryptCaesar (decryptCaesar text (Some a)) (Some b)
  = decryptCaesar text (Some (a + b)).
Proof.
  intros Ha Hb Hab. rewrite decryptCaesar_twice by lia.
  rewrite decryptCaesar_small by auto. reflexivity.
Qed.

Lemma decryptCaesar_compose_witness :
  decryptCaesar (decryptCaesar (lit "Khoor") (Some 1)) (Some 2)
  = decryptCaesar (lit "Khoor") (Some (1 + 2)).
Proof.
  apply (decryptCaesar_compose (lit "Khoor") 1 2);
    try (split; [discriminate | lia]); lia.
Defined.

(** ** The URL decoder *)

Lemma Decode_step fuel C rest :
  Decode (S fuel) (C :: rest) =
  if C =? 37 then
    match rest with
    | h1 :: h2 :: rest2 =>
        match ParseHexOctet h1 h2 with
        | None => Throw URIError
        | Some B =>
            match leadingOnes B with
            | O => R <- Decode fuel rest2 ;; Return (B :: R)
            | 1%nat | 5%nat => Throw URIError
            | S n =>
                match readContinuation n rest2 with
                | None => Throw URIError
                | Some (octets, rest3) =>
                    match utf8CodePoint B octets with
                    | None => Throw URIError
                    | Some V => R <- Decode fuel rest3 ;; Return (utf16 V ++ R)
                    end
                end
            end
        end
    | _ => Throw URIError
    end
  else R <- Decode fuel rest ;; Return (C :: R).
Proof. reflexivity. Qed.

Lemma decodeURIComponent_plain c rest :
  c <> 37 ->
  decodeURIComponent (c :: rest)
  = (R <- decodeURIComponent rest ;; Return (c :: R)).
Proof.
  intros Hc. unfold decodeURIComponent. cbn [List.length].
  rewrite Decode_step. apply Z.eqb_neq in Hc. rewrite Hc. reflexivity.
Qed.

Lemma decodeURIComponent_ascii_escape h1 h2 B rest :
  ParseHexOctet h1 h2 = Some B -> B < 128 ->
  decodeURIComponent (37 :: h1 :: h2 :: rest)
  = (R <- decodeURIComponent rest ;; Return (B :: R)).
Proof.
  intros HP HB. unfold decodeURIComponent. cbn [List.length].
  rewrite Decode_step, Z.eqb_refl, HP. unfold leadingOnes.
  apply Z.ltb_lt in HB. rewrite HB.
  rewrite (Decode_fuel_irrelevant (S (S (List.length rest)))
             (List.length rest) rest) by lia.
  reflexivity.
Qed.

Lemma decodeURIComponent_bad_escape tail :
  match tail with
  | h1 :: h2 :: _ => isHexDigit h1 && isHexDigit h2
  | _ => false
  end = false ->
  decodeURIComponent (37 :: tail) = Throw URIError.
Proof.
  intros H. unfold decodeURIComponent. cbn [List.length].
  rewrite Decode_step, Z.eqb_refl.
  destruct tail as [|h1 [|h2 rest]]; try reflexivity.
  unfold ParseHexOctet. rewrite H. reflexivity.
Qed.

(** X10. A text without [%] is returned as it is by the URL decoder; in
    particular [+] is not turned into a space. *)
Theorem decryptURL_plain (text : jsstring) :
  includes text 37 = false -> decryptURL text = Return text.
Proof.
  unfold decryptURL, includes. intros H.
  assert (D : decodeURIComponent text = Return text).
  { induction text as [|c text IH]; [reflexivity|].
    cbn [existsb] in H. apply orb_false_iff in H as [Hc Ht].
    apply Z.eqb_neq in Hc. assert (c <> 37) by congruence.
    rewrite decodeURIComponent_plain, IH by auto. reflexivity. }
  rewrite D. reflexivity.
Qed.

Lemma decryptURL_plain_witness :
  decryptURL (lit "a+b c") = Return (lit "a+b c").
Proof. apply (decryptURL_plain (lit "a+b c")). reflexivity. Defined.

(** X11. When the first [%] of a text is not followed by two hex digits,
    the URL decoder throws its own error, whatever follows. *)
Theorem decryptURL_malformed (before tail : jsstring) :
  includes before 37 = false ->
  match tail with
  | h1 :: h2 :: _ => isHexDigit h1 && isHexDigit h2
  | _ => false
  end = false ->
  decryptURL (before ++ 37 :: tail) = Throw UrlFailed.
Proof.
  unfold decryptURL, includes. intros H T.
  assert (D : decodeURIComponent (before ++ 37 :: tail) = Throw URIError).
  { induction before as [|c before IH].
    - apply decodeURIComponent_bad_escape; auto.
    - cbn [existsb] in H. apply orb_false_iff in H as [Hc Ht].
      apply Z.eqb_neq in Hc. assert (c <> 37) by congruence. cbn [app].
      rewrite decodeURIComponent_plain, IH by auto. reflexivity. }
  rewrite D. reflexivity.
Qed.

Lemma decryptURL_malformed_witness :
  decryptURL (lit "100%") = Throw UrlFailed
  /\ decryptURL (lit "50%zz off") = Throw UrlFailed.
Proof.
  split.
  - apply (decryptURL_malformed (lit "100") []); reflexivity.
  - apply (decryptURL_malformed (lit "50") (lit "zz off")); reflexivity.
Defined.

Lemma percentEscape_octet c :
  0 <= c < 128 ->
  ParseHexOctet (hexDigitChar (c / 16)) (hexDigitChar (c mod 16)) = Some c.
Proof.
  intros Hc.
  assert (E : forallb (fun c =>
            match ParseHexOctet (hexDigitChar (c / 16))
                                (hexDigitChar (c mod 16)) with
            | Some v => v =? c
            | None => false
            end) (codes 128) = true) by (vm_compute; reflexivity).
  rewrite forallb_forall in E. specialize (E c (in_codes 128 c Hc)).
  destruct (ParseHexOctet _ _); [|discriminate].
  apply Z.eqb_eq in E. congruence.
Qed.

(** X12. URL round trip: if a text is percent-encoded so that the
    characters chosen to stay are copied and all the others, which must be
    ASCII, are written [%XX], the URL decoder gives the text back. *)
Theorem decryptURL_percentEncode (unreserved : Z -> bool) (text : jsstring) :
  Forall (fun c => unreserved c = false \/ c = 37 -> 0 <= c < 128) text ->
  decryptURL (percentEncode unreserved text) = Return text.
Proof.
  intros H. unfold decryptURL.
  assert (D : decodeURIComponent (percentEncode unreserved text)
              = Return text).
  { unfold percentEncode.
    induction H as [|c text Hc Ht IH]; [reflexivity|].
    cbn [flat_map].
    destruct (unreserved c && negb (c =? 37)) eqn:K.
    - apply andb_true_iff in K as [_ K]. apply negb_true_iff in K.
      apply Z.eqb_neq in K. cbn [app].
      rewrite decodeURIComponent_plain, IH by auto. reflexivity.
    - assert (A : 0 <= c < 128).
      { apply Hc. apply andb_false_iff in K as [K|K]; auto.
        right. apply negb_false_iff, Z.eqb_eq in K. exact K. }
      match goal with |- decodeURIComponent (percentEscape c ++ ?X) = _ =>
        change (decodeURIComponent
                  (37 :: hexDigitChar (c / 16) :: hexDigitChar (c mod 16) :: X)
                = Return (c :: text)) end.
      rewrite (decodeURIComponent_ascii_escape _ _ c)
        by (try apply percentEscape_octet; lia).
      rewrite IH. reflexivity. }
  rewrite D. reflexivity.
Qed.

Lemma decryptURL_percentEncode_witness :
  percentEncode isLetter (lit "Hello World, 100%") = lit "Hello%20World%2c%20%31%30%30%25"
  /\ decryptURL (percentEncode isLetter (lit "Hello World, 100%"))
     = Return (lit "Hello World, 100%").
Proof.
  split; [reflexivity|].
  apply (decryptURL_percentEncode isLetter (lit "Hello World, 100%")).
  repeat constructor; lia.
Defined.

(** ** The classifier, continued *)

Lemma test_rejects r c s :
  In c s -> alphabet r c = false -> test r s = false.
Proof.
  intros Hin Ha. destruct (test r s) eqn:T; auto.
  apply test_lang, lang_alphabet in T.
  rewrite forallb_forall in T. rewrite (T c Hin) in Ha. discriminate.
Qed.

Lemma decimalRule_rejects c text :
  In c text -> isDigit c = false -> c <> backslash -> decimalRule text = false.
Proof.
  intros Hin Hd Hb. unfold decimalRule. rewrite replaceClass_remove.
  apply (test_rejects _ c).
  - apply filter_In. split; auto. apply negb_true_iff, Z.eqb_neq. congruence.
  - unfold reDecimal, Opt, Plus, Chr. cbn [alphabet].
    rewrite Hd. apply Z.eqb_neq in Hb. rewrite Z.eqb_sym in Hb.
    rewrite Hb. reflexivity.
Qed.

Lemma hexRule_rejects c text :
  In c text -> isHexOrSpace c = false -> hexRule text = false.
Proof.
  intros Hin Hc. unfold hexRule. rewrite (test_rejects _ c); auto.
  simpl. rewrite Hc. reflexivity.
Qed.

Lemma base64Rule_rejects c text :
  In c text -> isBase64Char c = false -> c <> 61 -> base64Rule text = false.
Proof.
  intros Hin Hc He. unfold base64Rule. rewrite (test_rejects _ c); auto.
  unfold reBase64, Plus, Chr. cbn [alphabet].
  rewrite Hc. apply Z.eqb_neq in He. rewrite Z.eqb_sym in He.
  rewrite He. reflexivity.
Qed.

Lemma urlRule_rejects c text :
  In c text -> isUrlChar c = false -> urlRule text = false.
Proof.
  intros Hin Hc. unfold urlRule. rewrite (test_rejects reUrl c); auto.
  - apply andb_false_r.
  - simpl. rewrite Hc. reflexivity.
Qed.

Lemma detect_decimal_rule text :
  detectEncryptionType text = "decimal"%string <-> decimalRule text = true.
Proof.
  unfold detectEncryptionType.
  destruct (decimalRule text); [tauto|].
  destruct (hexRule text); [split; discriminate|].
  destruct (base64Rule text); [split; discriminate|].
  destruct (urlRule text); split; discriminate.
Qed.

(** X13. The classifier answers ["decimal"] exactly when the text, once
    its backslashes are removed, is a non-empty string of decimal
    digits. *)
Theorem detectEncryptionType_decimal_iff (text : jsstring) :
  detectEncryptionType text = "decimal"%string
  <-> let rest := filter (fun c => negb (c =? 92)) text in
      rest <> [] /\ forallb isDigit rest = true.
Proof.
  rewrite detect_decimal_rule, decimalRule_spec. cbv zeta.
  replace (filter (fun c => negb (backslash =? c)) text)
    with (filter (fun c => negb (c =? 92)) text)
    by (apply filter_ext; intros c; unfold backslash;
        rewrite Z.eqb_sym; reflexivity).
  set (rest := filter _ text). rewrite andb_true_iff.
  destruct rest; simpl; intuition (congruence || discriminate).
Qed.

(** X14. The classifier answers ["url"] exactly when the text holds a [%]
    and nothing but characters of [A-Za-z0-9%-_.~]. *)
Theorem detectEncryptionType_url_iff (text : jsstring) :
  detectEncryptionType text = "url"%string
  <-> In 37 text /\ forallb isUrlChar text = true.
Proof.
  split.
  - unfold detectEncryptionType.
    destruct (decimalRule text); [discriminate|].
    destruct (hexRule text); [discriminate|].
    destruct (base64Rule text); [discriminate|].
    destruct (urlRule text) eqn:U; [|discriminate].
    intros _. rewrite urlRule_spec in U.
    apply andb_true_iff in U as [I U]. apply andb_true_iff in U as [_ U].
    split; auto. unfold includes in I. apply existsb_exists in I as (c & Hc & E).
    apply Z.eqb_eq in E. congruence.
  - intros [I U]. unfold detectEncryptionType.
    rewrite (decimalRule_rejects 37 text I), (hexRule_rejects 37 text I),
      (base64Rule_rejects 37 text I); try reflexivity; try discriminate.
    assert (R : urlRule text = true).
    { rewrite urlRule_spec, U. destruct text; [contradiction|].
      rewrite !andb_true_r. unfold includes. apply existsb_exists.
      exists 37. split; auto. }
    rewrite R. reflexivity.
Qed.

Lemma base64Rule_spec text :
  base64Rule text = true
  <-> (exists body padding,
         text = body ++ padding /\ body <> []
         /\ forallb isBase64Char body = true
         /\ forallb (Z.eqb 61) padding = true)
      /\ (len text) mod 4 = 0.
Proof.
  unfold base64Rule. rewrite andb_true_iff, Z.eqb_eq.
  rewrite Z.rem_mod_nonneg by (unfold len; lia).
  apply and_iff_compat_r. rewrite test_lang. unfold reBase64. split.
  - intros H. apply lang_seq_inv in H as (body & padding & E & B & P).
    exists body, padding. apply test_lang in B. rewrite test_plus_cls in B.
    apply andb_true_iff in B as [N B]. apply lang_alphabet in P.
    repeat split; auto. destruct body; [discriminate | congruence].
  - intros (body & padding & -> & N & B & P). constructor.
    + apply test_lang. rewrite test_plus_cls, B.
      destruct body; [congruence | reflexivity].
    + apply lang_star_cls. exact P.
Qed.

(** X15. The classifier answers ["base64"] exactly when the decimal and
    hex rules fail and the text is a non-empty run of characters of
    [A-Za-z0-9+/] followed by any number of [=], of a length divisible by
    4. *)
Theorem detectEncryptionType_base64_iff (text : jsstring) :
  detectEncryptionType text = "base64"%string
  <-> decimalRule text = false /\ hexRule text = false
      /\ (exists body padding,
            text = body ++ padding /\ body <> []
            /\ forallb isBase64Char body = true
            /\ forallb (Z.eqb 61) padding = true)
      /\ (len text) mod 4 = 0.
Proof.
  rewrite <- base64Rule_spec. unfold detectEncryptionType.
  destruct (decimalRule text); [split; [discriminate | intros []; discriminate]|].
  destruct (hexRule text);
    [split; [discriminate | intros (_ & ? & _); discriminate]|].
  destruct (base64Rule text); [tauto|].
  split; [|intros (_ & _ & ?); discriminate].
  destruct (urlRule text); discriminate.
Qed.

Lemma isLetter_base64 c : isLetter c = true -> isBase64Char c = true.
Proof.
  unfold isLetter, isBase64Char. intros H.
  apply orb_true_iff in H as [->| ->]; rewrite ?orb_true_r; reflexivity.
Qed.

Lemma isLetter_not_digit c : isLetter c = true -> isDigit c = false.
Proof.
  intros H. apply isLetter_cases in H. unfold isDigit.
  apply andb_false_iff. rewrite !Z.leb_gt. lia.
Qed.

Lemma isLetter_not_space c : isLetter c = true -> isWhiteSpace c = false.
Proof.
  intros H. apply isLetter_cases in H. unfold isWhiteSpace.
  repeat (apply orb_false_iff; split);
    try (apply andb_false_iff; rewrite !Z.leb_gt; lia);
    apply Z.eqb_neq; lia.
Qed.

(** X16. A non-empty text of ASCII letters whose length is divisible by 4
    is never classified as Caesar: it is ["hex"] when all its letters are
    hex digits and ["base64"] otherwise. *)
Theorem detectEncryptionType_letters_by_four (text : jsstring) :
  text <> [] -> forallb isLetter text = true -> (len text) mod 4 = 0 ->
  detectEncryptionType text
  = if forallb isHexDigit text then "hex"%string else "base64"%string.
Proof.
  intros Hne HL H4.
  assert (D : decimalRule text = false).
  { destruct text as [|c text]; [congruence|].
    simpl in HL. apply andb_true_iff in HL as [Hc _].
    apply (decimalRule_rejects c); [left; auto | |].
    - apply isLetter_not_digit; auto.
    - apply isLetter_cases in Hc. unfold backslash. lia. }
  assert (E : Z.even (len text) = true).
  { apply Z.even_spec. exists (2 * (len text / 4)).
    pose proof (Z.div_mod (len text) 4). lia. }
  assert (HS : forallb isHexOrSpace text = forallb isHexDigit text).
  { clear -HL. induction text as [|c text IH]; [reflexivity|].
    simpl in *. apply andb_true_iff in HL as [Hc Ht].
    rewrite IH by auto. unfold isHexOrSpace.
    rewrite (isLetter_not_space c Hc), orb_false_r. reflexivity. }
  assert (B : base64Rule text = true).
  { apply base64Rule_spec. split; auto. exists text, [].
    rewrite app_nil_r. repeat split; auto.
    eapply forallb_weaken; [|exact HL]. apply isLetter_base64. }
  unfold detectEncryptionType. rewrite D, hexRule_spec, HS, E, B.
  destruct text; [congruence|]. cbn [Boolean andb]. rewrite andb_true_r.
  destruct (forallb isHexDigit (z :: text)); reflexivity.
Qed.

Lemma detectEncryptionType_letters_by_four_witness :
  detectEncryptionType (lit "Uryy") = "base64"%string
  /\ detectEncryptionType (lit "Cafe") = "hex"%string.
Proof.
  split.
  - rewrite (detectEncryptionType_letters_by_four (lit "Uryy"));
      [reflexivity | discriminate | reflexivity | reflexivity].
  - rewrite (detectEncryptionType_letters_by_four (lit "Cafe"));
      [reflexivity | discriminate | reflexivity | reflexivity].
Defined.

Lemma isHexOrSpace_digit c : isDigit c = true -> isHexOrSpace c = true.
Proof. unfold isHexOrSpace, isHexDigit. intros ->. reflexivity. Qed.

(** X17. A text holding a character that no rule admits (anything other
    than white space, [A-Za-z0-9], [+ / = % - _ . ~] and the backslash,
    for instance [!], a comma or a non-ASCII letter) is classified
    ["caesar"]. *)
Theorem detectEncryptionType_foreign (text : jsstring) :
  existsb isForeign text = true ->
  detectEncryptionType text = "caesar"%string.
Proof.
  intros H. apply existsb_exists in H as (c & Hin & F).
  unfold isForeign in F. apply negb_true_iff in F.
  apply orb_false_iff in F as [F Hb]. apply orb_false_iff in F as [F He].
  apply orb_false_iff in F as [F Hu]. apply orb_false_iff in F as [Hh H6].
  assert (Hd : isDigit c = false).
  { destruct (isDigit c) eqn:D; [|reflexivity].
    rewrite (isHexOrSpace_digit c D) in Hh. discriminate. }
  unfold detectEncryptionType.
  rewrite (decimalRule_rejects c text), (hexRule_rejects c text),
    (base64Rule_rejects c text), (urlRule_rejects c text); auto.
  - apply Z.eqb_neq; auto.
  - unfold backslash. apply Z.eqb_neq; auto.
Qed.

Lemma detectEncryptionType_foreign_witness :
  detectEncryptionType (lit "Khoor, Zruog!") = "caesar"%string.
Proof.
  apply (detectEncryptionType_foreign (lit "Khoor, Zruog!")). reflexivity.
Defined.

(** ** The dispatcher, continued *)

Lemma detect_label_cases text :
  In (detectEncryptionType text)
     ["decimal"; "hex"; "base64"; "url"; "caesar"]%string.
Proof.
  unfold detectEncryptionType.
  destruct (decimalRule text); [simpl; auto|].
  destruct (hexRule text); [simpl; auto|].
  destruct (base64Rule text); [simpl; auto|].
  destruct (urlRule text); simpl; auto 6.
Qed.


(** X18. A type that is none of the seven literals makes the dispatcher
    throw its "unsupported type" error, whatever the text and the shift. *)
Theorem performDecryption_unsupported
    (text : jsstring) (type : string) (shift : option Z) :
  existsb (String.eqb type) encryptionTypes = false ->
  performDecryption text type shift = Throw UnsupportedType.
Proof.
  unfold encryptionTypes. cbn [existsb]. intros H.
  repeat (apply orb_false_iff in H as [? H]).
  unfold performDecryption.
  repeat match goal with E : String.eqb type _ = false |- _ =>
    rewrite E; clear E end.
  reflexivity.
Qed.

Lemma performDecryption_unsupported_witness :
  performDecryption (lit "Khoor") "Caesar" (Some 3) = Throw UnsupportedType.
Proof.
  apply (performDecryption_unsupported (lit "Khoor") "Caesar"). reflexivity.
Defined.

(** X19. The dispatcher throws two errors only: the URL decoder's, and then
    the type in use is ["url"], or "unsupported type", and then the type
    asked for is none of the seven literals.  Decoding as decimal, hex,
    base64, Caesar or ROT13 never fails. *)
Theorem performDecryption_errors
    (text : jsstring) (type : string) (shift : option Z) (e : error) :
  performDecryption text type shift = Throw e ->
  (e = UrlFailed
   /\ (if String.eqb type "auto" then detectEncryptionType text else type)
      = "url"%string)
  \/ (e = UnsupportedType
      /\ existsb (String.eqb type) encryptionTypes = false).
Proof.
  unfold performDecryption. cbv zeta.
  pose proof (detect_label_cases text) as L.
  destruct (String.eqb type "auto") eqn:A.
  - destruct L as [E|[E|[E|[E|[E|[]]]]]]; rewrite <- E;
      cbn [String.eqb Ascii.eqb Bool.eqb bind decryptDecimal decryptHex
             decryptBase64 try_catch]; try discriminate.
    unfold decryptURL. destruct (decodeURIComponent text); cbn; try discriminate.
    intros [= <-]. left. auto.
  - clear L.
    destruct (String.eqb type "decimal") eqn:T1; [discriminate|].
    destruct (String.eqb type "hex") eqn:T2; [discriminate|].
    destruct (String.eqb type "base64") eqn:T3; [discriminate|].
    destruct (String.eqb type "caesar") eqn:T4; [discriminate|].
    destruct (String.eqb type "rot13") eqn:T5; [discriminate|].
    destruct (String.eqb type "url") eqn:T6.
    + apply String.eqb_eq in T6. subst type.
      unfold decryptURL. destruct (decodeURIComponent text); cbn;
        try discriminate.
      intros [= <-]. left. auto.
    + cbn. intros [= <-]. right. split; auto.
      unfold encryptionTypes. cbn [existsb].
      rewrite A, T1, T2, T3, T4, T5, T6. reflexivity.
Qed.

Lemma performDecryption_errors_witness :
  performDecryption (lit "100%") "auto" None = Throw UrlFailed
  /\ detectEncryptionType (lit "100%") = "url"%string.
Proof.
  split; [reflexivity|].
  destruct (performDecryption_errors (lit "100%") "auto" None UrlFailed
              eq_refl) as [[_ H]|[H _]]; [exact H | discriminate].
Defined.

(** X20. In auto mode a non-empty text of decimal digits writing a number
    below 2^53 is decoded as decimal into a single character, the one
    whose code is that number modulo 2^16. *)
Theorem performDecryption_auto_digits (text : jsstring) (shift : option Z) :
  text <> [] -> forallb isDigit text = true -> decimalValue text < 2 ^ 53 ->
  performDecryption text "auto" shift
  = Return ([decimalValue text mod 65536], "decimal"%string).
Proof.
  intros Hne Hd _. unfold performDecryption.
  cbn [String.eqb Ascii.eqb Bool.eqb].
  assert (D : detectEncryptionType text = "decimal"%string).
  { apply detect_decimal_rule, decimalRule_digits; auto. }
  rewrite D. cbn [String.eqb Ascii.eqb Bool.eqb].
  unfold decryptDecimal, try_catch.
  assert (S : split backslash text = [text]).
  { rewrite <- (app_nil_r text) at 1. rewrite split_fragment by auto.
    cbn [split]. rewrite app_nil_r. reflexivity. }
  rewrite S. destruct text as [|d text]; [congruence|].
  cbn [filter Boolean map join List.concat bind app].
  rewrite parseInt_decimal by (auto; discriminate). reflexivity.
Qed.

Lemma performDecryption_auto_digits_witness :
  performDecryption (lit "12345678") "auto" None
  = Return ([24910], "decimal"%string).
Proof.
  apply (performDecryption_auto_digits (lit "12345678") None);
    [discriminate | reflexivity | reflexivity].
Defined.

(** ** The user store *)

Lemma userGet_userSet_same k v m : userGet k (userSet k v m) = Some v.
Proof.
  induction m as [|[k' v'] m IH]; simpl.
  - rewrite String.eqb_refl. reflexivity.
  - destruct (String.eqb k k') eqn:E; simpl.
    + rewrite String.eqb_refl. reflexivity.
    + rewrite E. exact IH.
Qed.

Lemma userGet_userSet_other k k2 v m :
  k2 <> k -> userGet k2 (userSet k v m) = userGet k2 m.
Proof.
  intros N. induction m as [|[k' v'] m IH]; simpl.
  - apply String.eqb_neq in N. rewrite N. reflexivity.
  - destruct (String.eqb k k') eqn:E; simpl.
    + apply String.eqb_eq in E. subst k'.
      apply String.eqb_neq in N. rewrite N. reflexivity.
    + rewrite IH. reflexivity.
Qed.

(** X21. A user just created is found under its identifier, with the name
    and password given, and the lookup of every other identifier is as
    before. *)
Theorem createUser_getUser
    (users : UserMap) (insertUser : InsertUser) (uuid : string) :
  let users' := fst (createUser users insertUser uuid) in
  let user := snd (createUser users insertUser uuid) in
  getUser users' uuid = Some user
  /\ user_id user = uuid
  /\ username user = ins_username insertUser
  /\ password user = ins_password insertUser
  /\ forall other, other <> uuid -> getUser users' other = getUser users other.
Proof.
  cbv zeta. unfold createUser, getUser. cbn [fst snd].
  repeat split; try apply userGet_userSet_same.
  intros other N. apply userGet_userSet_other; auto.
Qed.

Lemma strictEq_true a b : strictEq a b = true <-> a = b.
Proof.
  unfold strictEq. destruct (list_eq_dec Z.eq_dec a b); split;
    congruence || discriminate.
Qed.

(** X22. The lookup by name returns a stored user of that name, and
    nothing exactly when no stored user has that name; the lookup of an
    identifier never set returns nothing. *)
Theorem getUserByUsername_spec (users : UserMap) (name : jsstring) :
  match getUserByUsername users name with
  | Some user => In user (map snd users) /\ username user = name
  | None => forall user, In user (map snd users) -> username user <> name
  end
  /\ forall id, (forall k v, In (k, v) users -> k <> id) ->
                getUser users id = None.
Proof.
  split.
  - unfold getUserByUsername.
    destruct (find _ (map snd users)) as [user|] eqn:F.
    + apply find_some in F as [I E]. apply strictEq_true in E. auto.
    + intros user I E.
      pose proof (find_none _ _ F user I) as N. cbv beta in N.
      apply strictEq_true in E. congruence.
  - intros k. unfold getUser.
    induction users as [|[k' v'] users IH]; intros N; [reflexivity|].
    simpl. destruct (String.eqb k k') eqn:E.
    + apply String.eqb_eq in E. exfalso. apply (N k' v'); [left|]; auto.
    + apply IH. intros k2 v2 I. apply (N k2 v2). right. exact I.
Qed.

(** ** The session store, continued *)

Lemma mapSet_fresh k v m :
  noKey k m -> mapSet k v m = m ++ [(k, v)].
Proof.
  induction m as [|[k' v'] m IH]; intros N; [reflexivity|].
  simpl. destruct (String.eqb k k') eqn:E.
  - apply String.eqb_eq in E. exfalso. apply (N k' v'); [left|]; auto.
  - rewrite IH; auto. intros k2 v2 I. apply (N k2 v2). right. exact I.
Qed.

(** X23. Recording a session under an identifier not yet in the store adds
    it after all the others, leaves them untouched, copies the five fields
    given and stamps it with the current time. *)
Theorem createDecryptionSession_fresh
    (st : MemStorage) (ins : InsertDecryptionSession) (uuid : string)
    (now : Z) :
  noKey uuid (decryptionSessions st) ->
  let st' := fst (createDecryptionSession st ins uuid now) in
  let session := snd (createDecryptionSession st ins uuid now) in
  mapValues (decryptionSessions st')
  = mapValues (decryptionSessions st) ++ [session]
  /\ id session = uuid
  /\ createdAt session = Some now
  /\ originalText session = ins_originalText ins
  /\ decodedText session = ins_decodedText ins
  /\ encryptionType session = ins_encryptionType ins
  /\ originalLength session = ins_originalLength ins
  /\ decodedLength session = ins_decodedLength ins.
Proof.
  intros N. cbv zeta. unfold createDecryptionSession. cbn [fst snd].
  repeat split. cbn [decryptionSessions].
  rewrite mapSet_fresh by auto. unfold mapValues. rewrite map_app.
  reflexivity.
Qed.

Lemma createDecryptionSession_fresh_witness :
  map id (mapValues (decryptionSessions
     (fst (createDecryptionSession twoSessions sampleInsert "id-3" 3000))))
  = ["id-1"; "id-2"; "id-3"]%string.
Proof.
  assert (N : noKey "id-3" (decryptionSessions twoSessions)).
  { intros k v [E|[E|[]]]; inversion E; discriminate. }
  destruct (createDecryptionSession_fresh twoSessions sampleInsert "id-3"
              3000 N) as [H _].
  rewrite H. reflexivity.
Defined.

Lemma sort_newest_last {A} (cmp : A -> A -> Z) (key : A -> Z) l x :
  (forall a b, cmp a b = key b - key a) ->
  Forall (fun y => key y < key x) l ->
  sort cmp (l ++ [x]) = x :: sort cmp l.
Proof.
  intros K H. unfold sort. rewrite fold_right_app. cbn [fold_right insert].
  induction H as [|y l Hy Hl IH]; [reflexivity|].
  cbn [fold_right]. rewrite IH. cbn [insert].
  assert (E : (cmp y x <=? 0) = false) by (apply Z.leb_gt; rewrite K; lia).
  rewrite E. reflexivity.
Qed.

(** X24. A session recorded under a new identifier at a time later than
    that of every stored session comes first in the history, for every
    limit of at least 1. *)
Theorem getDecryptionSessions_latest_first
    (st : MemStorage) (ins : InsertDecryptionSession) (uuid : string)
    (now N : Z) :
  noKey uuid (decryptionSessions st) ->
  Forall (fun s => timeOf s < now) (mapValues (decryptionSessions st)) ->
  1 <= N ->
  hd_error (getDecryptionSessions
              (fst (createDecryptionSession st ins uuid now)) (Some N))
  = Some (snd (createDecryptionSession st ins uuid now)).
Proof.
  intros Hk Ht HN.
  destruct (createDecryptionSession_fresh st ins uuid now Hk) as [E _].
  unfold getDecryptionSessions. rewrite E.
  rewrite (sort_newest_last compareSessions timeOf) by (auto; exact Ht).
  rewrite slice0_nonneg by lia.
  destruct (Z.to_nat N) eqn:Z; [lia | reflexivity].
Qed.

Lemma getDecryptionSessions_latest_first_witness :
  option_map id
    (hd_error (getDecryptionSessions
       (fst (createDecryptionSession twoSessions sampleInsert "id-3" 3000))
       (Some 1)))
  = Some "id-3"%string.
Proof.
  rewrite (getDecryptionSessions_latest_first twoSessions sampleInsert
             "id-3" 3000 1).
  - reflexivity.
  - intros k v [E|[E|[]]]; inversion E; discriminate.
  - repeat constructor.
  - lia.
Defined.

Lemma filter_insert_key {A} (cmp : A -> A -> Z) (key : A -> Z) t x l :
  (forall a b, cmp a b = key b - key a) ->
  filter (fun y => key y =? t) (insert cmp x l)
  = filter (fun y => key y =? t) (x :: l).
Proof.
  intros K. induction l as [|y l IH]; [reflexivity|].
  cbn [insert]. destruct (cmp x y <=? 0) eqn:E; [reflexivity|].
  apply Z.leb_gt in E. rewrite K in E.
  cbn [filter] in *. rewrite IH.
  destruct (key x =? t) eqn:X; [|reflexivity].
  apply Z.eqb_eq in X.
  assert (Y : (key y =? t) = false) by (apply Z.eqb_neq; lia).
  rewrite Y. reflexivity.
Qed.

Lemma filter_sort_key {A} (cmp : A -> A -> Z) (key : A -> Z) t l :
  (forall a b, cmp a b = key b - key a) ->
  filter (fun y => key y =? t) (sort cmp l) = filter (fun y => key y =? t) l.
Proof.
  intros K. induction l as [|x l IH]; [reflexivity|].
  unfold sort in *. cbn [fold_right].
  rewrite (filter_insert_key cmp key) by auto.
  cbn [filter]. rewrite IH. reflexivity.
Qed.

(** X25. The history is stable: with a limit that covers the whole store,
    the sessions created at one and the same time appear in the order in
    which they were recorded. *)
Theorem getDecryptionSessions_stable (st : MemStorage) (N t : Z) :
  Z.of_nat (List.length (decryptionSessions st)) <= N ->
  filter (fun s => timeOf s =? t) (getDecryptionSessions st (Some N))
  = filter (fun s => timeOf s =? t) (mapValues (decryptionSessions st)).
Proof.
  intros HN. unfold getDecryptionSessions.
  rewrite slice0_nonneg by lia.
  rewrite firstn_all2.
  - apply (filter_sort_key compareSessions timeOf). reflexivity.
  - rewrite <- (Permutation_length (sort_perm compareSessions _)).
    unfold mapValues. rewrite length_map. lia.
Qed.

Lemma getDecryptionSessions_stable_witness :
  map id (filter (fun s => timeOf s =? 1000)
            (getDecryptionSessions
               (fst (createDecryptionSession twoSessions sampleInsert
                       "id-3" 1000)) (Some 10)))
  = ["id-1"; "id-3"]%string.
Proof.
  rewrite (getDecryptionSessions_stable
             (fst (createDecryptionSession twoSessions sampleInsert
                     "id-3" 1000)) 10 1000).
  - reflexivity.
  - vm_compute. discriminate.
Defined.

(** X26. Whatever the limit, missing or negative included, the query
    returns a prefix of the full history (newest first); a negative limit
    [N] leaves out the [-N] oldest sessions, and a missing limit is 10. *)
Theorem getDecryptionSessions_prefix (st : MemStorage) (limit : option Z) :
  let total := Z.of_nat (List.length (decryptionSessions st)) in
  let full := getDecryptionSessions st (Some total) in
  let result := getDecryptionSessions st limit in
  let N := match limit with Some n => n | None => 10 end in
  Permutation (mapValues (decryptionSessions st)) full
  /\ result = firstn (List.length result) full
  /\ Z.of_nat (List.length result)
     = if N <? 0 then Z.max (total + N) 0 else Z.min N total.
Proof.
  cbv zeta.
  set (total := Z.of_nat (List.length (decryptionSessions st))).
  set (sorted := sort compareSessions (mapValues (decryptionSessions st))).
  assert (LS : Z.of_nat (List.length sorted) = total).
  { unfold sorted, total, mapValues.
    rewrite <- (Permutation_length (sort_perm compareSessions _)).
    rewrite length_map. reflexivity. }
  assert (F : getDecryptionSessions st (Some total) = sorted).
  { unfold getDecryptionSessions. fold sorted.
    rewrite slice0_nonneg by (unfold total; lia).
    apply firstn_all2. lia. }
  rewrite F. split; [apply sort_perm|].
  unfold getDecryptionSessions. fold sorted. unfold slice0. rewrite LS.
  set (N := match limit with Some n => n | None => 10 end).
  set (final := if N <? 0 then Z.max (total + N) 0 else Z.min N total).
  assert (B : 0 <= final <= total).
  { unfold final. destruct (Z.ltb_spec N 0); unfold total; lia. }
  assert (L : List.length (firstn (Z.to_nat final) sorted) = Z.to_nat final).
  { rewrite length_firstn. lia. }
  rewrite L. split; [reflexivity | lia].
Qed.

Lemma getUserByUsername_spec_witness :
  (exists user,
     getUserByUsername twoUsers (lit "bob") = Some user
     /\ In user (map snd twoUsers) /\ username user = lit "bob")
  /\ (forall user, In user (map snd twoUsers) -> username user <> lit "carol")
  /\ getUser twoUsers "id-9" = None.
Proof.
  destruct (getUserByUsername_spec twoUsers (lit "bob")) as [Hbob Hid].
  destruct (getUserByUsername_spec twoUsers (lit "carol")) as [Hcarol _].
  split; [|split].
  - destruct (getUserByUsername twoUsers (lit "bob")) as [user|] eqn:E;
      [|discriminate].
    exists user. split; [reflexivity | exact Hbob].
  - destruct (getUserByUsername twoUsers (lit "carol")) as [user|] eqn:E;
      [discriminate | exact Hcarol].
  - apply Hid. intros k v [E|[E|[]]]; inversion E; discriminate.
Defined.

(** ** The handler of [POST /api/decrypt] *)

Lemma parseDecryptRequest_some body text type shift :
  parseDecryptRequest body = Some (text, type, shift) ->
  body_text body = Some text /\ 1 <= len text
  /\ existsb (String.eqb type) encryptionTypes = true
  /\ shift = body_caesarShift body.
Proof.
  unfold parseDecryptRequest.
  destruct (body_text body) as [t|]; [|discriminate].
  destruct (Z.leb_spec 1 (len t)); [|discriminate].
  destruct (body_encryptionType body) as [ty|].
  - destruct (existsb (String.eqb ty) encryptionTypes) eqn:E; [|discriminate].
    intros [= <- <- <-]. auto.
  - intros [= <- <- <-]. auto.
Qed.

(** X27. A request answered with status 400 leaves the session store as
    it was, and there are two causes only: the body did not pass the
    schema, or the URL decoder failed.  The "unsupported type" error of
    the dispatcher cannot be reached through this handler. *)
Theorem postDecrypt_failure
    (st st' : MemStorage) (body : DecryptBody) (uuid : string) (now : Z)
    (cause : failure) :
  postDecrypt st body uuid now = (st', BadRequest cause) ->
  st' = st /\ (cause = Invalid \/ cause = Thrown UrlFailed).
Proof.
  unfold postDecrypt.
  destruct (parseDecryptRequest body) as [[[text type] shift]|] eqn:P.
  - apply parseDecryptRequest_some in P as (_ & _ & T & _).
    destruct (performDecryption text type shift) as [[decoded dt]|e] eqn:D.
    + cbn. discriminate.
    + intros [= <- <-]. split; auto. right.
      apply performDecryption_errors in D as [[-> _]|[_ U]]; auto.
      congruence.
  - intros [= <- <-]. auto.
Qed.

Lemma postDecrypt_failure_witness :
  postDecrypt twoSessions
    {| body_text := Some (lit "100%");
       body_encryptionType := Some "url"%string;
       body_caesarShift := None |} "id-3" 3000
  = (twoSessions, BadRequest (Thrown UrlFailed)).
Proof.
  destruct (postDecrypt_failure twoSessions twoSessions
              {| body_text := Some (lit "100%");
                 body_encryptionType := Some "url"%string;
                 body_caesarShift := None |} "id-3" 3000
              (Thrown UrlFailed) eq_refl) as [_ _].
  reflexivity.
Defined.

Lemma mapSet_in k v m : In (k, v) (mapSet k v m).
Proof.
  induction m as [|[k' v'] m IH]; simpl; auto.
  destruct (String.eqb k k'); simpl; auto.
Qed.

(** X28. A request answered with success had a text of at least one code
    unit; the lengths in the answer are those of that text and of the
    decoded text, in code units; the session identifier is the new one;
    and the store now holds, under that identifier, a session with the
    same texts, type, lengths and the current time. *)
Theorem postDecrypt_success
    (st st' : MemStorage) (body : DecryptBody) (uuid : string) (now : Z)
    (decoded : jsstring) (detectedType : string)
    (originalLength decodedLength : Z) (sessionId : string) :
  postDecrypt st body uuid now
  = (st', Success decoded detectedType originalLength decodedLength
                  sessionId) ->
  exists text,
    body_text body = Some text
    /\ 1 <= len text
    /\ originalLength = len text
    /\ decodedLength = len decoded
    /\ sessionId = uuid
    /\ In (uuid,
           {| id := uuid;
              originalText := text;
              decodedText := decoded;
              encryptionType := detectedType;
              originalLength := len text;
              decodedLength := len decoded;
              createdAt := Some now |}) (decryptionSessions st').
Proof.
  unfold postDecrypt.
  destruct (parseDecryptRequest body) as [[[text type] shift]|] eqn:P;
    [|discriminate].
  apply parseDecryptRequest_some in P as (T & L & _ & _).
  destruct (performDecryption text type shift) as [[d dt]|e]; [|discriminate].
  unfold createDecryptionSession. cbn [id].
  intros [= <- <- <- <- <- <-]. exists text.
  repeat split; auto. cbn [decryptionSessions]. apply mapSet_in.
Qed.

Lemma postDecrypt_success_witness :
  exists text,
    Some (lit "Khoor") = Some text /\ 1 <= len text /\ 5 = len text.
Proof.
  destruct (postDecrypt_success twoSessions
              (fst (postDecrypt twoSessions
                      {| body_text := Some (lit "Khoor");
                         body_encryptionType := Some "caesar"%string;
                         body_caesarShift := None |} "id-3" 3000))
              {| body_text := Some (lit "Khoor");
                 body_encryptionType := Some "caesar"%string;
                 body_caesarShift := None |} "id-3" 3000
              (lit "Hello") "caesar" 5 5 "id-3" eq_refl)
    as (text & T & L & O & _).
  exists text. auto.
Defined.

(** ** The filter of uploaded files *)

Lemma lastIndexOf_absent s c : ~ In c s -> lastIndexOf s c = -1.
Proof.
  induction s as [|x s IH]; intros N; [reflexivity|].
  cbn [lastIndexOf]. rewrite IH by (intros I; apply N; right; exact I).
  cbn. assert (E : (x =? c) = false)
    by (apply Z.eqb_neq; intros ->; apply N; left; reflexivity).
  rewrite E. reflexivity.
Qed.

Lemma lastIndexOf_last base c ext :
  ~ In c ext -> lastIndexOf (base ++ c :: ext) c = Z.of_nat (List.length base).
Proof.
  intros N. induction base as [|x base IH].
  - cbn [app lastIndexOf List.length]. rewrite lastIndexOf_absent by auto.
    cbn. rewrite Z.eqb_refl. reflexivity.
  - cbn [app lastIndexOf List.length]. rewrite IH.
    destruct (Z.leb_spec 0 (Z.of_nat (List.length base))); lia.
Qed.

Lemma last_occurrence (c : Z) (s : jsstring) :
  In c s -> exists base ext, s = base ++ c :: ext /\ ~ In c ext.
Proof.
  induction s as [|x s IH]; intros I; [contradiction|].
  destruct (in_dec Z.eq_dec c s) as [I'|N].
  - destruct (IH I') as (base & ext & -> & N). exists (x :: base), ext. auto.
  - destruct I as [->|I]; [|contradiction]. exists [], s. auto.
Qed.

Lemma asciiLower_dot c : asciiLower c = 46 <-> c = 46.
Proof.
  unfold asciiLower, isUpper.
  destruct (Z.leb_spec 65 c); destruct (Z.leb_spec c 90); cbn; lia.
Qed.

Section FileFilterFacts.

Variable toLowerCase : jsstring -> jsstring.
Hypothesis toLowerCase_ascii :
  forall s, forallb isAscii s = true -> toLowerCase s = map asciiLower s.

Lemma fileFilter_ascii_aux name :
  forallb isAscii name = true ->
  fileFilter toLowerCase name = true
  <-> exists base ext,
        name = base ++ 46 :: ext /\ ~ In 46 ext
        /\ In (map asciiLower ext) [lit "txt"; lit "log"; lit "dat"].
Proof.
  intros A. unfold fileFilter. rewrite toLowerCase_ascii by auto.
  unfold allowedTypes. cbn [existsb]. rewrite orb_false_r.
  rewrite !orb_true_iff, !strictEq_true.
  destruct (in_dec Z.eq_dec 46 name) as [I|N].
  - destruct (last_occurrence 46 name I) as (base & ext & -> & N).
    rewrite lastIndexOf_last by auto. unfold substring.
    rewrite Z.max_r, Nat2Z.id by lia.
    rewrite map_app, <- (length_map asciiLower base), skipn_app.
    rewrite skipn_all, Nat.sub_diag. cbn [app skipn map].
    replace (asciiLower 46) with 46 by reflexivity.
    split.
    + intros H. exists base, ext. split; [reflexivity|]. split; [exact N|].
      cbn [In]. change (lit ".txt") with (46 :: lit "txt") in H.
      change (lit ".log") with (46 :: lit "log") in H.
      change (lit ".dat") with (46 :: lit "dat") in H.
      destruct H as [H|[H|H]]; injection H as H; auto.
    + intros (base' & ext' & E & N' & H).
      assert (X : ext' = ext).
      { assert (L : Z.of_nat (List.length base') = Z.of_nat (List.length base)).
        { rewrite <- (lastIndexOf_last base' 46 ext' N'), <- E.
          apply lastIndexOf_last; auto. }
        apply (f_equal (skipn (List.length base))) in E.
        rewrite skipn_app, skipn_all, Nat.sub_diag in E.
        replace (List.length base) with (List.length base') in E by lia.
        rewrite skipn_app, skipn_all, Nat.sub_diag in E.
        cbn in E. congruence. }
      subst ext'. cbn [In] in H.
      destruct H as [H|[H|[H|[]]]]; rewrite <- H; auto.
  - rewrite lastIndexOf_absent by auto. unfold substring.
    change (Z.to_nat (Z.max 0 (-1))) with 0%nat. cbn [skipn].
    split.
    + intros H. exfalso.
      assert (I : In 46 (map asciiLower name)).
      { destruct H as [H|[H|H]]; rewrite H; left; reflexivity. }
      apply in_map_iff in I as (c & E & I).
      apply (proj1 (asciiLower_dot c)) in E. subst c. exact (N I).
    + intros (base & ext & -> & _). exfalso. apply N.
      apply in_or_app. right. left. reflexivity.
Qed.

End FileFilterFacts.

(** X29. For a file name in ASCII, and a [toLowerCase] that is the usual
    one on ASCII, the upload filter accepts the file exactly when the name
    holds a dot and what follows its last dot is [txt], [log] or [dat] in
    any mix of cases; a name without a dot is refused. *)
Theorem fileFilter_ascii
    (toLowerCase : jsstring -> jsstring) (name : jsstring) :
  (forall s, forallb isAscii s = true -> toLowerCase s = map asciiLower s) ->
  forallb isAscii name = true ->
  fileFilter toLowerCase name = true
  <-> exists base ext,
        name = base ++ 46 :: ext /\ ~ In 46 ext
        /\ In (map asciiLower ext) [lit "txt"; lit "log"; lit "dat"].
Proof. intros H A. apply fileFilter_ascii_aux; auto. Qed.

Lemma fileFilter_ascii_witness :
  fileFilter (map asciiLower) (lit "notes.v2.TXT") = true
  /\ fileFilter (map asciiLower) (lit "txt") = false.
Proof.
  split; [|reflexivity].
  apply (fileFilter_ascii (map asciiLower) (lit "notes.v2.TXT"));
    [reflexivity | reflexivity |].
  exists (lit "notes.v2"), (lit "TXT").
  split; [reflexivity|]. split; [|left; reflexivity].
  intros [E|[E|[E|[]]]]; discriminate.
Defined.

(** ** The age of a session *)

(** X30. The text shown for the age of a session, for two dates less than
    2^44 milliseconds apart: "moments ago" below one minute (also for a
    date in the future), then whole minutes from 1 to 59, whole hours from
    1 to 23, and whole days from 1 on, each rounded down. *)
Theorem formatTimeAgo_ranges (now then_ : Z) :
  Z.abs (now - then_) < 2 ^ 44 ->
  let elapsed := now - then_ in
  match formatTimeAgo now then_ with
  | Moments => elapsed < 60000
  | MinutesAgo n => 1 <= n <= 59 /\ n * 60000 <= elapsed < (n + 1) * 60000
  | HoursAgo n => 1 <= n <= 23 /\ n * 3600000 <= elapsed < (n + 1) * 3600000
  | DaysAgo n => 1 <= n /\ n * 86400000 <= elapsed < (n + 1) * 86400000
  end.
Proof.
  intros _. cbv zeta. unfold formatTimeAgo. cbv zeta.
  change (1000 * 60) with 60000.
  set (d := now - then_). clearbody d.
  destruct (Z.ltb_spec (d / 60000) 1) as [H1|H1].
  - pose proof (Z.div_mod d 60000). pose proof (Z.mod_pos_bound d 60000). lia.
  - destruct (Z.ltb_spec (d / 60000) 60) as [H2|H2].
    + pose proof (Z.div_mod d 60000). pose proof (Z.mod_pos_bound d 60000).
      lia.
    + rewrite Z.div_div by lia. change (60000 * 60) with 3600000.
      destruct (Z.ltb_spec (d / 3600000) 24) as [H3|H3].
      * pose proof (Z.div_mod d 3600000).
        pose proof (Z.mod_pos_bound d 3600000).
        pose proof (Z.div_mod d 60000). pose proof (Z.mod_pos_bound d 60000).
        lia.
      * rewrite Z.div_div by lia. change (3600000 * 24) with 86400000.
        pose proof (Z.div_mod d 86400000).
        pose proof (Z.mod_pos_bound d 86400000).
        pose proof (Z.div_mod d 3600000).
        pose proof (Z.mod_pos_bound d 3600000).
        lia.
Qed.

Lemma formatTimeAgo_ranges_witness :
  formatTimeAgo 1700007500000 1700000000000 = HoursAgo 2
  /\ 2 * 3600000 <= 1700007500000 - 1700000000000 < (2 + 1) * 3600000.
Proof.
  split; [reflexivity|].
  assert (B : Z.abs (1700007500000 - 1700000000000) < 2 ^ 44) by reflexivity.
  apply (formatTimeAgo_ranges 1700007500000 1700000000000 B).
Defined.
